(** * The GSA experiment notebooks: registry, drivers, deferred execution

    A shallow embedding of the two notebooks of the repository:

    - [dev/run_gsa.ipynb], the local driver: it builds the model registry
      [models_dict], loops over the selected model names and GSA methods,
      builds one [gf.Problem] per pair, loads the pickled sensitivity
      indices and plots them;
    - the dask-capable notebook: the same registry (with other scaling
      constants), a loop that calls [problem_per_worker] (either
      [gf.Problem] or [dask.delayed(gf.Problem)]), appends the result to
      [model_evals], and a later cell that runs [dask.compute(model_evals)].

    The notebooks own no algorithm: the framework ([gf.Problem],
    [plot_sa_results]), the pickled files and the dask scheduler are
    external.  They appear here as a [Framework] record the development is
    parametrised by; the notebook code is embedded in a state-and-exception
    monad whose state holds the directory tree, the registry, the list
    [model_evals] and the trace of the calls the notebook issued. *)

From stdpp Require Import base strings gmap list pretty.
From Stdlib Require Import ZArith.

Local Open Scope Z_scope.

(** ** Data model *)

(** A [pathlib.Path], as the list of its components below the root. *)
Definition Path : Type := list string.

(** [p / name] *)
Definition path_div (p : Path) (name : string) : Path := p ++ [name].

(** The path itself and every ancestor of it, the root first: what
    [mkdir(parents=True)] makes sure of. *)
Fixpoint with_parents (p : Path) : list Path :=
  match p with
  | [] => [[]]
  | c :: p' => [] :: map (cons c) (with_parents p')
  end.

(** A model instance of the framework; the notebooks read two attributes. *)
Record Model : Type := mkModel {
  num_params : Z;
  influential_params : list Z;
}.

(** One entry of [models_dict]:
    [dict(model=..., write_dir=..., iterations=..., const=...)]. *)
Module Entry.
Record t : Type := mk {
  model : Model;
  write_dir : Path;
  iterations : Z;
  const : Z;
}.
End Entry.

(** The keyword arguments of [gf.Problem(...)] and the object it returns. *)
Module Problem.
Record args {SampleMatrix : Type} : Type := mkArgs {
  sampler : string;
  model : Model;
  interpreter : string;
  write_dir : Path;
  iterations : option Z;
  seed : Z;
  X : option SampleMatrix;
}.
Arguments args : clear implicits.
Arguments mkArgs {SampleMatrix}.

Record t {SampleMatrix : Type} : Type := mk {
  kwargs : args SampleMatrix;
  gsa_dict : gmap string Path;
}.
Arguments t : clear implicits.
Arguments mk {SampleMatrix}.
End Problem.

(** Python exceptions the notebooks can meet. *)
Inductive Exn : Type :=
| KeyError (key : string)
| FileNotFoundError (p : Path)
| Exception (msg : string).

Section Notebook.

(** Index values and sample matrices are arrays of floats the notebooks
    never look into. *)
Context {IndexValues SampleMatrix : Type}.

(** A sensitivity result set: the items of the unpickled dict, in order. *)
Definition SaResults : Type := list (string * IndexValues).

(** The part of the outside world the notebooks touch: the paths that
    exist on the disk, all of them directories ([exists] is asked of output
    directories only), and the pickled result files the framework wrote,
    by path. *)
Record World : Type := mkWorld {
  dirs : gset Path;
  files : gmap Path SaResults;
}.

(** An element of [model_evals]: a [gf.Problem] already built, or the
    [Delayed] object [dask.delayed(gf.Problem)] applied to the keyword arguments. *)
Inductive Task : Type :=
| Built (p : Problem.t SampleMatrix)
| Deferred (a : Problem.args SampleMatrix).

(** The external code: the framework's constructor and plotting method
    (either returns, maybe in another world, or raises), and the order in
    which the dask scheduler runs the tasks it is given. *)
Record Framework : Type := mkFramework {
  gf_Problem : Problem.args SampleMatrix → World → Exn + (Problem.t SampleMatrix * World);
  plot_sa_results : Problem.t SampleMatrix → SaResults → list Z → World → Exn + World;
  dask_schedule : list Task → list Task;
}.

(** The calls a notebook issues, in order.  A [gf.Problem] call is recorded
    with the world it was issued in. *)
Inductive Event : Type :=
| EvPrint (line : string)
| EvMkdir (p : Path)
| EvProblem (a : Problem.args SampleMatrix) (w : World)
| EvDelayed (a : Problem.args SampleMatrix)
| EvLoad (p : Path)
| EvPlot (problem : Problem.t SampleMatrix) (sa_indices : SaResults) (influential : list Z).

(** The state of a notebook: the world, the globals [models_dict] and
    [model_evals] (the local notebook leaves the second alone), and the
    trace of the calls issued so far. *)
Record State : Type := mkState {
  world : World;
  models_dict : gmap string Entry.t;
  model_evals : list Task;
  trace : list Event;
}.

(** ** The monad of notebook code: state, and exceptions that keep the
    state reached when they were raised. *)

Inductive Res (A : Type) : Type :=
| Ok (a : A) (s : State)
| Raise (e : Exn) (s : State).
Arguments Ok {A}.
Arguments Raise {A}.

Definition M (A : Type) : Type := State → Res A.

#[global] Instance M_ret : MRet M := λ A a s, Ok a s.
#[global] Instance M_bind : MBind M := λ A B f m s,
  match m s with
  | Ok a s' => f a s'
  | Raise e s' => Raise e s'
  end.

Definition final {A} (r : Res A) : State :=
  match r with Ok _ s => s | Raise _ s => s end.

(** The value returned, and the exception raised. *)
Definition returned {A} (r : Res A) : option A :=
  match r with Ok a _ => Some a | Raise _ _ => None end.

Definition raised {A} (r : Res A) : option Exn :=
  match r with Ok _ _ => None | Raise e _ => Some e end.


Definition log (ev : Event) (s : State) : State :=
  mkState (world s) (models_dict s) (model_evals s) (trace s ++ [ev]).

Definition set_world (w : World) (s : State) : State :=
  mkState w (models_dict s) (model_evals s) (trace s).

Definition set_model_evals (l : list Task) (s : State) : State :=
  mkState (world s) (models_dict s) l (trace s).

(** [for x in l: body(x)] *)
Fixpoint for_each {A} (body : A → M unit) (l : list A) : M unit :=
  match l with
  | [] => mret tt
  | x :: l' => body x ;; for_each body l'
  end.

(** ** Primitives *)

Definition print (line : string) : M unit := λ s, Ok tt (log (EvPrint line) s).

(** [models_dict[model_name]] *)
Definition models_dict_getitem (model_name : string) : M Entry.t := λ s,
  match models_dict s !! model_name with
  | Some c => Ok c s
  | None => Raise (KeyError model_name) s
  end.

(** [p.exists()] *)
Definition path_exists (p : Path) : M bool := λ s,
  Ok (bool_decide (p ∈ dirs (world s))) s.

(** [p.mkdir(parents=True, exist_ok=True)] *)
Definition mkdir_world (p : Path) (w : World) : World :=
  mkWorld (dirs w ∪ list_to_set (with_parents p)) (files w).

Definition path_mkdir (p : Path) : M unit := λ s,
  Ok tt (set_world (mkdir_world p (world s)) (log (EvMkdir p) s)).

Variable F : Framework.

(** [gf.Problem] called with the keyword arguments [a] *)
Definition call_Problem (a : Problem.args SampleMatrix) : M (Problem.t SampleMatrix) := λ s,
  let s1 := log (EvProblem a (world s)) s in
  match gf_Problem F a (world s) with
  | inl e => Raise e s1
  | inr (p, w') => Ok p (set_world w' s1)
  end.

(** [problem.gsa_dict[key]] *)
Definition gsa_dict_getitem (problem : Problem.t SampleMatrix) (key : string) : M Path := λ s,
  match Problem.gsa_dict problem !! key with
  | Some f => Ok f s
  | None => Raise (KeyError key) s
  end.

(** [with open(filename, 'rb') as f: pickle.load(f)] *)
Definition pickle_load (filename : Path) : M SaResults := λ s,
  let s1 := log (EvLoad filename) s in
  match files (world s) !! filename with
  | Some r => Ok r s1
  | None => Raise (FileNotFoundError filename) s1
  end.

(** [problem.plot_sa_results(sa_indices, influential)] *)
Definition call_plot_sa_results (problem : Problem.t SampleMatrix)
    (sa_indices : SaResults) (influential : list Z) : M unit := λ s,
  let s1 := log (EvPlot problem sa_indices influential) s in
  match plot_sa_results F problem sa_indices influential (world s) with
  | inl e => Raise e s1
  | inr w' => Ok tt (set_world w' s1)
  end.

(** ** [dev/run_gsa.ipynb]: the local driver *)

Definition newline : string := String (Ascii.ascii_of_nat 10) "".

(** The statements of the outer loop body before the inner loop. *)
Definition model_setup (model_name : string) : M (Model * Path) :=
  print (newline +:+ ">>> " +:+ model_name) ;;
  c ← models_dict_getitem model_name ;
  let model := Entry.model c in
  c ← models_dict_getitem model_name ;
  let write_dir := Entry.write_dir c in
  ex ← path_exists write_dir ;
  (if negb ex then path_mkdir write_dir else mret tt) ;;
  mret (model, write_dir).

(** The result consumer: load the pickled indices, plot each of them. *)
Definition consume_results (problem : Problem.t SampleMatrix) (model : Model) : M unit :=
  filename_sa_results ← gsa_dict_getitem problem "sa_results" ;
  sa_results ← pickle_load filename_sa_results ;
  for_each (λ '(sa_index_name, sa_index_values),
      let sa_indices := [(sa_index_name, sa_index_values)] in
      call_plot_sa_results problem sa_indices (influential_params model))
    sa_results.

(** The body of the inner loop. *)
Definition run_gsa_pair (model_name : string) (model : Model) (write_dir : Path)
    (gsa_method : string) : M unit :=
  print ("--- " +:+ gsa_method) ;;
  c ← models_dict_getitem model_name ;
  problem ← call_Problem
    (Problem.mkArgs "random" model gsa_method write_dir
       (Some (Entry.iterations c)) 34534 None) ;
  consume_results problem model.

Definition run_gsa_model (gsa_methods : list string) (model_name : string) : M unit :=
  '(model, write_dir) ← model_setup model_name ;
  for_each (run_gsa_pair model_name model write_dir) gsa_methods.

Definition run_gsa (model_names gsa_methods : list string) : M unit :=
  for_each (run_gsa_model gsa_methods) model_names.

(** ** The dask-capable notebook *)

(** [dask.delayed(gf.Problem)] applied to the keyword arguments [a]:
    nothing is built, the call is kept as a [Delayed] object. *)
Definition delayed_Problem (a : Problem.args SampleMatrix) : M Task := λ s,
  Ok (Deferred a) (log (EvDelayed a) s).

(** [problem_per_worker], as bound by the [if use_dask] at the top of the
    cell, applied to the keyword arguments [a]. *)
Definition problem_per_worker (use_dask : bool) (a : Problem.args SampleMatrix) : M Task :=
  if use_dask then delayed_Problem a
  else problem ← call_Problem a ; mret (Built problem).

(** [str(iterations)] *)
Definition str_iterations (iterations : option Z) : string :=
  match iterations with
  | Some n => pretty n
  | None => "None"
  end.

(** [model_evals.append(problem)] *)
Definition model_evals_append (problem : Task) : M unit := λ s,
  Ok tt (set_model_evals (model_evals s ++ [problem]) s).

(** The body of the inner loop. *)
Definition delayed_pair (use_dask : bool) (model_name : string) (model : Model)
    (write_dir : Path) (gsa_method : string) : M unit :=
  iterations ←
    (if String.eqb gsa_method "eFAST_indices" then mret (Some 130)
     else if String.eqb gsa_method "correlation_coefficients" then mret None
     else c ← models_dict_getitem model_name ; mret (Some (Entry.iterations c))) ;
  print ("--- " +:+ gsa_method +:+ " -> " +:+ pretty (num_params model)
         +:+ " parameters, " +:+ str_iterations iterations +:+ " iterations") ;;
  problem ← problem_per_worker use_dask
    (Problem.mkArgs "random" model gsa_method write_dir iterations 34534 None) ;
  model_evals_append problem.

Definition delayed_model (use_dask : bool) (gsa_methods : list string)
    (model_name : string) : M unit :=
  '(model, write_dir) ← model_setup model_name ;
  for_each (delayed_pair use_dask model_name model write_dir) gsa_methods.

(** The cell with the loop: [model_evals = []], then the two loops. *)
Definition delayed_cell (use_dask : bool) (model_names gsa_methods : list string) : M unit :=
  (λ s, Ok tt (set_model_evals [] s)) ;;
  for_each (delayed_model use_dask gsa_methods) model_names.

(** [n_workers = len(gsa_methods) * len(model_names)] *)
Definition n_workers (gsa_methods model_names : list string) : nat :=
  (length gsa_methods * length model_names)%nat.

(** What computing one element of the list does: a [Delayed] call is
    carried out, anything else is handed back as it is. *)
Definition compute_task (t : Task) : M unit :=
  match t with
  | Built _ => mret tt
  | Deferred a => _ ← call_Problem a ; mret tt
  end.

(** [dask.compute(model_evals)]: the tasks are carried out in the order the
    scheduler picks; the first exception ends the call. *)
Definition dask_compute : M unit := λ s,
  for_each compute_task (dask_schedule F (model_evals s)) s.

(** The loop cell followed by the compute cell. *)
Definition delayed_notebook (use_dask : bool) (model_names gsa_methods : list string) : M unit :=
  delayed_cell use_dask model_names gsa_methods ;; dask_compute.

End Notebook.

Arguments Ok {IndexValues SampleMatrix A}.
Arguments Raise {IndexValues SampleMatrix A}.
Arguments World : clear implicits.
Arguments Task : clear implicits.
Arguments Framework : clear implicits.
Arguments Event : clear implicits.
Arguments State : clear implicits.

(** ** The registries *)

(** [path_base] of both notebooks. *)
Definition path_base : Path :=
  ["Users"; "akim"; "PycharmProjects"; "gsa_framework"; "dev"; "write_files"; "paper_gsa"].

(** The registry of [dev/run_gsa.ipynb], from the four model instances the
    framework constructed. *)
Definition models_dict_run_gsa (model_lca model_moon model_morris model_SL : Model)
    : gmap string Entry.t :=
  let write_dir_lca := path_div path_base "lca_model" in
  let const_lca := 2 in
  let iterations_lca := num_params model_lca * const_lca in
  let write_dir_moon := path_div path_base "moon_model" in
  let const_moon := num_params model_moon in
  let iterations_moon := num_params model_moon * const_moon in
  let write_dir_morris := path_div path_base "morris_model" in
  let const_morris := num_params model_morris * 2 in
  let iterations_morris := num_params model_morris * const_morris in
  let write_dir_SL := path_div path_base "sobol_levitan_model" in
  let const_SL := num_params model_SL in
  let iterations_SL := num_params model_SL * const_SL in
  list_to_map [
    ("lca", Entry.mk model_lca write_dir_lca iterations_lca const_lca);
    ("moon", Entry.mk model_moon write_dir_moon iterations_moon const_moon);
    ("morris", Entry.mk model_morris write_dir_morris iterations_morris const_morris);
    ("sobol_levitan", Entry.mk model_SL write_dir_SL iterations_SL const_SL)
  ].

(** The registry of the dask-capable notebook. *)
Definition models_dict_delayed (model_lca model_moon model_morris model_SL : Model)
    : gmap string Entry.t :=
  let write_dir_lca := path_div path_base "lca_model" in
  let const_lca := 2 in
  let iterations_lca := num_params model_lca * const_lca in
  let write_dir_moon := path_div path_base "moon_model" in
  let const_moon := 2 in
  let iterations_moon := num_params model_moon * const_moon in
  let write_dir_morris := path_div path_base "morris_model" in
  let const_morris := 2 in
  let iterations_morris := num_params model_morris * const_morris in
  let write_dir_SL := path_div path_base "sobol_levitan_model" in
  let const_SL := 2 in
  let iterations_SL := num_params model_SL * const_SL in
  list_to_map [
    ("lca", Entry.mk model_lca write_dir_lca iterations_lca const_lca);
    ("moon", Entry.mk model_moon write_dir_moon iterations_moon const_moon);
    ("morris", Entry.mk model_morris write_dir_morris iterations_morris const_morris);
    ("sobol_levitan", Entry.mk model_SL write_dir_SL iterations_SL const_SL)
  ].

(** The selections as the notebooks have them. *)
Definition gsa_methods_run_gsa : list string :=
  ["correlation_coefficients"; "sobol_indices"; "eFAST_indices"; "xgboost"].
Definition model_names_run_gsa : list string := ["morris"; "sobol_levitan"].

(** ** Reading a trace *)

Section Reading.
Context {IndexValues SampleMatrix : Type}.
(** The [gf.Problem] calls of a trace, each with the world it was issued in. *)
Definition problem_calls (tr : list (Event IndexValues SampleMatrix))
    : list (Problem.args SampleMatrix * World IndexValues) :=
  omap (λ ev, match ev with EvProblem a w => Some (a, w) | _ => None end) tr.

(** The keyword arguments of the [gf.Problem] calls of a trace. *)
Definition constructions (tr : list (Event IndexValues SampleMatrix))
    : list (Problem.args SampleMatrix) :=
  (problem_calls tr).*1.

(** The keyword arguments a trace handed to [dask.delayed(gf.Problem)]. *)
Definition deferrals (tr : list (Event IndexValues SampleMatrix))
    : list (Problem.args SampleMatrix) :=
  omap (λ ev, match ev with EvDelayed a => Some a | _ => None end) tr.

(** The state a notebook starts its driver cell in. *)
Definition notebook_start (w : World IndexValues) (reg : gmap string Entry.t)
    : State IndexValues SampleMatrix :=
  mkState w reg [] [].

End Reading.

(** * The vocabulary of the statements

    What the lemmas and theorems below are stated with: the relations
    between the state before and after a command, the keyword arguments
    each driver passes, the descriptors and tasks a run may produce, and
    the assumptions on the external code. *)

Section Vocabulary.
Context {IndexValues SampleMatrix : Type}.
Variable F : Framework IndexValues SampleMatrix.
Local Abbreviation St := (State IndexValues SampleMatrix).
Local Abbreviation Cmd A := (@M IndexValues SampleMatrix A).
Local Abbreviation Kwargs := (Problem.args SampleMatrix).
Local Abbreviation Fw := (Framework IndexValues SampleMatrix).

(** ** Triples and frames *)

(** [triple P m Q E]: started in a state of [P], the command [m] either
    returns a value and a state of [Q], or raises in a state of [E]. *)
Definition triple {A} (P : St → Prop) (m : Cmd A) (Q : A → St → Prop) (E : St → Prop) : Prop :=
  ∀ s, P s → match m s with Ok a s' => Q a s' | Raise _ s' => E s' end.

(** [keeps R m]: whatever [m] does, returning or raising, the state it
    ends in is related by [R] to the state it started in. *)
Definition keeps {A} (R : St → St → Prop) (m : Cmd A) : Prop :=
  ∀ s, R s (final (m s)).

(** ** States and events of the drivers *)

(** The state [model_setup] leaves: the line printed, and the directory
    made when it was not there. *)
Definition after_setup (model_name : string) (write_dir : Path) (s : St) : St :=
  let s1 := log (EvPrint (newline +:+ ">>> " +:+ model_name)) s in
  if bool_decide (write_dir ∈ dirs (world s)) then s1
  else set_world (mkdir_world write_dir (world s)) (log (EvMkdir write_dir) s1).

(** The plot call the consumer issues for one entry of the result set. *)
Definition plot_entry (problem : Problem.t SampleMatrix) (model : Model)
    (entry : string * IndexValues) : Event IndexValues SampleMatrix :=
  EvPlot problem [(entry.1, entry.2)] (influential_params model).

(** [quiet s s']: from [s] to [s'] the registry, [model_evals], the
    [gf.Problem] calls and the deferred calls are the same. *)
Definition quiet (s s' : St) : Prop :=
  models_dict s' = models_dict s ∧ model_evals s' = model_evals s ∧
  problem_calls (trace s') = problem_calls (trace s) ∧
  deferrals (trace s') = deferrals (trace s).

(** The framework deletes no directory: when [gf.Problem] or
    [plot_sa_results] returns, the directories there before are still
    there. *)
Definition keeps_dirs : Prop :=
  (∀ a w problem w', gf_Problem F a w = inr (problem, w') → dirs w ⊆ dirs w') ∧
  (∀ problem sa_indices influential w w',
     plot_sa_results F problem sa_indices influential w = inr w' → dirs w ⊆ dirs w').

(** The constructor always returns. *)
Definition constructs : Prop :=
  ∀ a w, ∃ problem w', gf_Problem F a w = inr (problem, w').

(** The framework does its part: the constructor returns a problem that
    names under ['sa_results'] a result file that is there, and plotting
    returns. *)
Definition dependable : Prop :=
  (∀ a w, ∃ problem w' f sa_results,
     gf_Problem F a w = inr (problem, w') ∧
     Problem.gsa_dict problem !! "sa_results" = Some f ∧
     files w' !! f = Some sa_results) ∧
  (∀ problem sa_indices influential w,
     ∃ w', plot_sa_results F problem sa_indices influential w = inr w').

(** Every selected model name is in the registry. *)
Definition registered (reg : gmap string Entry.t) (model_names : list string) : Prop :=
  Forall (λ model_name, is_Some (reg !! model_name)) model_names.

(** [grows s s']: the directories of [s] are still there in [s']. *)
Definition grows (s s' : St) : Prop := dirs (world s) ⊆ dirs (world s').

(** ** Descriptors and tasks *)

(** The keyword arguments the local driver passes for an entry and a method. *)
Definition run_gsa_kwargs (c : Entry.t) (gsa_method : string) : Kwargs :=
  Problem.mkArgs "random" (Entry.model c) gsa_method (Entry.write_dir c)
    (Some (Entry.iterations c)) 34534 None.

(** A [gf.Problem] call a driver may issue for the registry [reg] and the
    selections, when [kw] gives the keyword arguments it passes for an
    entry and a method: the keyword arguments of some selected pair, and,
    under a framework that deletes nothing, in a world where the output
    directory is there. *)
Definition issued_call (kw : Entry.t → string → Kwargs) (reg : gmap string Entry.t)
    (model_names gsa_methods : list string) (call : Kwargs * World IndexValues) : Prop :=
  ∃ model_name gsa_method c,
    model_name ∈ model_names ∧ gsa_method ∈ gsa_methods ∧
    reg !! model_name = Some c ∧ call.1 = kw c gsa_method ∧
    (keeps_dirs → Entry.write_dir c ∈ dirs call.2).

(** [a] is what a driver passing [kw] builds for the pair [(name, method)]. *)
Definition built_by (kw : Entry.t → string → Kwargs) (reg : gmap string Entry.t)
    (pair : string * string) (a : Kwargs) : Prop :=
  ∃ c, reg !! pair.1 = Some c ∧ a = kw c pair.2.

(** The keyword arguments the dask-capable driver passes. *)
Definition delayed_kwargs (c : Entry.t) (gsa_method : string) : Kwargs :=
  Problem.mkArgs "random" (Entry.model c) gsa_method (Entry.write_dir c)
    (if String.eqb gsa_method "eFAST_indices" then Some 130
     else if String.eqb gsa_method "correlation_coefficients" then None
     else Some (Entry.iterations c))
    34534 None.

(** The line the inner loop prints. *)
Definition delayed_line (model : Model) (gsa_method : string) (iterations : option Z) : string :=
  "--- " +:+ gsa_method +:+ " -> " +:+ pretty (num_params model)
    +:+ " parameters, " +:+ str_iterations iterations +:+ " iterations".

(** An element of [model_evals] the driver may have put there: a problem
    already built, or a deferred call with the keyword arguments of some
    selected pair whose output directory is there in the world [w]. *)
Definition pending_task (reg : gmap string Entry.t) (model_names gsa_methods : list string)
    (w : World IndexValues) (t : Task SampleMatrix) : Prop :=
  match t with
  | Built _ => True
  | Deferred a => issued_call delayed_kwargs reg model_names gsa_methods (a, w)
  end.

(** What the loop cell keeps true from one statement to the next. *)
Definition delayed_inv (reg : gmap string Entry.t) (model_names gsa_methods : list string)
    (s0 s : St) : Prop :=
  models_dict s = reg ∧
  (∃ new, problem_calls (trace s) = problem_calls (trace s0) ++ new ∧
     Forall (issued_call delayed_kwargs reg model_names gsa_methods) new) ∧
  Forall (pending_task reg model_names gsa_methods (world s)) (model_evals s).

(** The deferred calls among tasks. *)
Definition deferred_kwargs (t : Task SampleMatrix) : option Kwargs :=
  match t with
  | Built _ => None
  | Deferred a => Some a
  end.

(** The scheduler runs every task it is given, once. *)
Definition scheduler_fair : Prop := ∀ l, dask_schedule F l ≡ₚ l.

(** The element of [model_evals] that [problem_per_worker] returns for the
    keyword arguments [a]. *)
Definition task_for (use_dask : bool) (a : Kwargs) (t : Task SampleMatrix) : Prop :=
  if use_dask then t = Deferred a else ∃ p, t = Built p.

(** What a full run of the loops adds to the state, for the keyword
    arguments [new] of the pairs gone through. *)
Definition delayed_added (use_dask : bool) (new : list Kwargs) (s s' : St) : Prop :=
  models_dict s' = models_dict s ∧
  constructions (trace s') = constructions (trace s) ++ (if use_dask then [] else new) ∧
  deferrals (trace s') = deferrals (trace s) ++ (if use_dask then new else []) ∧
  ∃ tasks, model_evals s' = model_evals s ++ tasks ∧ Forall2 (task_for use_dask) new tasks.


(** The keyword arguments [problem_per_worker] was called with: deferred
    calls when [use_dask] is set, [gf.Problem] calls otherwise. *)
Definition worker_kwargs (use_dask : bool) (tr : list (Event IndexValues SampleMatrix))
    : list Kwargs :=
  if use_dask then deferrals tr else constructions tr.

(** The iteration count of [a] is the one the dask-capable driver picks
    for the method [g] and the registry entry [c]. *)
Definition overridden_iterations (c : Entry.t) (g : string) (a : Kwargs) : Prop :=
  (g = "eFAST_indices" → Problem.iterations a = Some 130) ∧
  (g = "correlation_coefficients" → Problem.iterations a = None) ∧
  (g ≠ "eFAST_indices" → g ≠ "correlation_coefficients" →
     Problem.iterations a = Some (Entry.iterations c)).


(** The calls of a trace other than printing and making directories. *)
Definition work_events (tr : list (Event IndexValues SampleMatrix))
    : list (Event IndexValues SampleMatrix) :=
  omap (λ ev, match ev with
              | EvPrint _ | EvMkdir _ => None
              | _ => Some ev
              end) tr.

(** What the local driver does for one pair: the problem is built, the
    result set is unpickled from the file the problem names under
    ['sa_results'], and one plot is asked for per entry, with that entry
    alone and the influential parameters of the model. *)
Definition pair_block (reg : gmap string Entry.t) (pair : string * string)
    (block : list (Event IndexValues SampleMatrix)) : Prop :=
  ∃ c problem w0 w1 f sa_results,
    reg !! pair.1 = Some c ∧
    gf_Problem F (run_gsa_kwargs c pair.2) w0 = inr (problem, w1) ∧
    Problem.gsa_dict problem !! "sa_results" = Some f ∧
    files w1 !! f = Some sa_results ∧
    block = EvProblem (run_gsa_kwargs c pair.2) w0 :: EvLoad f ::
            map (λ entry, EvPlot problem [(entry.1, entry.2)]
                            (influential_params (Entry.model c))) sa_results.

(** The five places where the body of the local driver's inner loop can
    raise, each with the exception raised and the state at that point: the
    registry lookup, the [gf.Problem] call, the lookup of ['sa_results'],
    the load of the file, and one of the plot calls after those before it
    went through. *)
Inductive run_gsa_pair_raises (model_name : string) (model : Model)
    (write_dir : Path) (gsa_method : string) (s : St) : Exn → St → Prop :=
| raises_at_registry :
    models_dict s !! model_name = None →
    run_gsa_pair_raises model_name model write_dir gsa_method s
      (KeyError model_name) (log (EvPrint ("--- " +:+ gsa_method)) s)
| raises_at_Problem c e :
    let a := Problem.mkArgs "random" model gsa_method write_dir
               (Some (Entry.iterations c)) 34534 None in
    models_dict s !! model_name = Some c →
    gf_Problem F a (world s) = inl e →
    run_gsa_pair_raises model_name model write_dir gsa_method s e
      (log (EvProblem a (world s)) (log (EvPrint ("--- " +:+ gsa_method)) s))
| raises_at_gsa_dict c problem w1 :
    let a := Problem.mkArgs "random" model gsa_method write_dir
               (Some (Entry.iterations c)) 34534 None in
    models_dict s !! model_name = Some c →
    gf_Problem F a (world s) = inr (problem, w1) →
    Problem.gsa_dict problem !! "sa_results" = None →
    run_gsa_pair_raises model_name model write_dir gsa_method s
      (KeyError "sa_results")
      (set_world w1 (log (EvProblem a (world s)) (log (EvPrint ("--- " +:+ gsa_method)) s)))
| raises_at_load c problem w1 f :
    let a := Problem.mkArgs "random" model gsa_method write_dir
               (Some (Entry.iterations c)) 34534 None in
    models_dict s !! model_name = Some c →
    gf_Problem F a (world s) = inr (problem, w1) →
    Problem.gsa_dict problem !! "sa_results" = Some f →
    files w1 !! f = None →
    run_gsa_pair_raises model_name model write_dir gsa_method s
      (FileNotFoundError f)
      (log (EvLoad f)
         (set_world w1 (log (EvProblem a (world s))
                          (log (EvPrint ("--- " +:+ gsa_method)) s))))
| raises_at_plot c problem w1 f plotted sa_index_name sa_index_values rest s2 e :
    let a := Problem.mkArgs "random" model gsa_method write_dir
               (Some (Entry.iterations c)) 34534 None in
    let sa_indices := [(sa_index_name, sa_index_values)] in
    models_dict s !! model_name = Some c →
    gf_Problem F a (world s) = inr (problem, w1) →
    Problem.gsa_dict problem !! "sa_results" = Some f →
    files w1 !! f = Some (plotted ++ (sa_index_name, sa_index_values) :: rest) →
    for_each (λ '(n, v), call_plot_sa_results F problem [(n, v)] (influential_params model))
      plotted
      (log (EvLoad f)
         (set_world w1 (log (EvProblem a (world s))
                          (log (EvPrint ("--- " +:+ gsa_method)) s))))
      = Ok tt s2 →
    plot_sa_results F problem sa_indices (influential_params model) (world s2) = inl e →
    run_gsa_pair_raises model_name model write_dir gsa_method s e
      (log (EvPlot problem sa_indices (influential_params model)) s2).

(** The iteration count of an entry is the number of parameters of its
    model times its scaling constant. *)
Definition scaled_iterations (c : Entry.t) : Prop :=
  Entry.iterations c = num_params (Entry.model c) * Entry.const c.

End Vocabulary.

(** * More of the notebooks

    The cells and the behaviour the statements above leave out: what the
    drivers print, which directories they make, the cells that set up the
    dask cluster, and the vocabulary of the statements about them. *)

(** ** The cluster cells of the dask-capable notebook *)




Section Further.
Context {IndexValues SampleMatrix : Type}.




(** ** Reading more of a trace *)

(** The lines printed. *)
Definition printed (tr : list (Event IndexValues SampleMatrix)) : list string :=
  omap (λ ev, match ev with EvPrint line => Some line | _ => None end) tr.


(** The loads of result files and the plot calls. *)
Definition consumer_calls (tr : list (Event IndexValues SampleMatrix))
    : list (Event IndexValues SampleMatrix) :=
  omap (λ ev, match ev with
              | EvLoad _ | EvPlot _ _ _ => Some ev
              | _ => None
              end) tr.

(** ** What the drivers are expected to print *)

(** The lines of the local driver: per model name its header, then one
    line per method. *)
Definition run_gsa_lines (model_names gsa_methods : list string) : list string :=
  flat_map (λ model_name,
      (newline +:+ ">>> " +:+ model_name) :: map (λ g, "--- " +:+ g) gsa_methods)
    model_names.



(** ** The loop both drivers share *)

(** The outer loop of either driver, for a given body of the inner loop. *)
Definition setup_loop (body : string → Model → Path → string → @M IndexValues SampleMatrix unit)
    (model_names gsa_methods : list string) : @M IndexValues SampleMatrix unit :=
  for_each (λ model_name,
      '(model, write_dir) ← model_setup model_name ;
      for_each (body model_name model write_dir) gsa_methods)
    model_names.


(** [appends P s s']: from [s] to [s'] the registry is the same and the
    trace has grown by events of [P] only. *)
Definition appends (P : Event IndexValues SampleMatrix → Prop)
    (s s' : State IndexValues SampleMatrix) : Prop :=
  models_dict s' = models_dict s ∧
  ∃ evs, trace s' = trace s ++ evs ∧ Forall P evs.


Definition consumes_nothing (ev : Event IndexValues SampleMatrix) : Prop :=
  match ev with EvLoad _ | EvPlot _ _ _ => False | _ => True end.



(** Events other than a printed line. *)
Definition prints_nothing (ev : Event IndexValues SampleMatrix) : Prop :=
  match ev with EvPrint _ => False | _ => True end.

(** [prints reg lines m]: run in a state with the registry [reg], the
    command [m] keeps the registry and prints a beginning of [lines],
    whatever its outcome, and all of [lines] when it returns. *)
Definition prints {A} (reg : gmap string Entry.t) (lines : list string)
    (m : @M IndexValues SampleMatrix A) : Prop :=
  ∀ s, models_dict s = reg →
    models_dict (final (m s)) = reg ∧
    ∃ ls, ls `prefix_of` lines ∧
      printed (trace (final (m s))) = printed (trace s) ++ ls ∧
      (∀ a s', m s = Ok a s' → ls = lines).

(** The pickled files are left as they are from [s] to [s']. *)
Definition same_files (s s' : State IndexValues SampleMatrix) : Prop :=
  files (world s') = files (world s).

End Further.

(** ** Sample instances

    Concrete models, worlds and frameworks on which the statements below
    are evaluated. *)

Module Sample.

Definition model_lca : Model := mkModel 114688 [].
Definition model_moon : Model := mkModel 3 [0; 1; 2].
Definition model_morris : Model := mkModel 50 [0; 1; 2; 3; 4].
Definition model_SL : Model := mkModel 20 [0; 1].

Definition registry_run_gsa : gmap string Entry.t :=
  models_dict_run_gsa model_lca model_moon model_morris model_SL.
Definition registry_delayed : gmap string Entry.t :=
  models_dict_delayed model_lca model_moon model_morris model_SL.

(** An empty disk. *)
Definition empty_world : World (list Z) := mkWorld ∅ ∅.

(** Where the sample framework stores the indices of a problem. *)
Definition results_file (a : Problem.args unit) : Path :=
  path_div (Problem.write_dir a) (Problem.interpreter a +:+ ".pickle").

Definition sample_indices : list (string * list Z) :=
  [("first_order", [7; 1]); ("total_order", [9; 2])].

(** A framework that computes at once: the constructor stores two index
    sets under the output directory, plotting does nothing, and the
    scheduler runs the tasks last to first. *)
Definition framework : Framework (list Z) unit :=
  mkFramework
    (λ a w,
       let f := results_file a in
       inr (Problem.mk a {[ "sa_results" := f ]},
            mkWorld (dirs w) (<[f := sample_indices]> (files w))))
    (λ _ _ _ w, inr w)
    reverse.

(** The same framework with an interpreter that is not installed, and a
    plotting method that cannot draw total-order indices. *)
Definition faulty_framework : Framework (list Z) unit :=
  mkFramework
    (λ a w,
       if String.eqb (Problem.interpreter a) "xgboost"
       then inl (Exception "No module named xgboost")
       else gf_Problem framework a w)
    (λ _ sa_indices _ w,
       match sa_indices with
       | ("total_order", _) :: _ => inl (Exception "cannot plot")
       | _ => inr w
       end)
    reverse.

(** A disk on which the output directory of the Morris model is there. *)
Definition morris_world : World (list Z) :=
  mkWorld (list_to_set (with_parents (path_div path_base "morris_model"))) ∅.

(** The states the sample runs start in, and the selections of the
    sample runs of the dask-capable notebook. *)
Definition start_run_gsa : State (list Z) unit :=
  notebook_start empty_world registry_run_gsa.
Definition start_delayed : State (list Z) unit :=
  notebook_start morris_world registry_delayed.
Definition model_names : list string := ["lca"; "morris"].
Definition gsa_methods : list string :=
  ["correlation_coefficients"; "sobol_indices"; "eFAST_indices"; "xgboost"].

(** The states the sample runs end in. *)
Definition end_run_gsa : State (list Z) unit :=
  final (run_gsa framework model_names_run_gsa gsa_methods_run_gsa start_run_gsa).
Definition end_delayed_cell (use_dask : bool) : State (list Z) unit :=
  final (delayed_cell framework use_dask model_names gsa_methods start_delayed).
Definition end_delayed (use_dask : bool) : State (list Z) unit :=
  final (delayed_notebook framework use_dask model_names gsa_methods start_delayed).


(** The sample run of the local driver on the faulty framework: the state
    after the statements before the inner loop of the first model name,
    and the state the run ends in. *)
Definition faulty_setup : State (list Z) unit :=
  final (model_setup "morris" start_run_gsa).
Definition end_faulty : State (list Z) unit :=
  final (run_gsa_pair faulty_framework "morris" model_morris
           (path_div path_base "morris_model") "correlation_coefficients" faulty_setup).




(** The local driver on the one model name before a name that is missing. *)
Definition before_missing : State (list Z) unit :=
  final (run_gsa framework ["morris"] ["sobol_indices"] start_run_gsa).
Definition before_missing_delayed : State (list Z) unit :=
  final (delayed_cell framework true ["morris"] ["sobol_indices"] start_run_gsa).

(** The loop cell and the compute cell, each run a second time. *)
Definition end_delayed_cell_again (use_dask : bool) : State (list Z) unit :=
  final (delayed_cell framework use_dask model_names gsa_methods
           (end_delayed_cell use_dask)).


End Sample.

(** * Reasoning about notebook code *)

Section Logic.
Context {IndexValues SampleMatrix : Type}.
Local Abbreviation St := (State IndexValues SampleMatrix).
Local Abbreviation Cmd A := (@M IndexValues SampleMatrix A).

(** ** Sequencing and loops *)

Lemma bind_Ok {A B} (m : Cmd A) (f : A → Cmd B) (s s' : St) (b : B) :
  (m ≫= f) s = Ok b s' ↔ ∃ a s1, m s = Ok a s1 ∧ f a s1 = Ok b s'.
Proof.
  unfold mbind, M_bind. destruct (m s) as [a s1|e s1]; split.
  - eauto.
  - intros (a' & s1' & [= <- <-] & Hf). exact Hf.
  - discriminate.
  - intros (a' & s1' & [=] & _).
Qed.

Lemma bind_Raise {A B} (m : Cmd A) (f : A → Cmd B) (s s' : St) (e : Exn) :
  (m ≫= f) s = Raise e s' ↔
  m s = Raise e s' ∨ ∃ a s1, m s = Ok a s1 ∧ f a s1 = Raise e s'.
Proof.
  unfold mbind, M_bind. destruct (m s) as [a s1|e1 s1]; split.
  - eauto.
  - intros [[=]|(a' & s1' & [= <- <-] & Hf)]. exact Hf.
  - intros [= <- <-]. by left.
  - intros [[= <- <-]|(a' & s1' & [=] & _)]. reflexivity.
Qed.

Lemma for_each_app {A} (body : A → Cmd unit) (l1 l2 : list A) (s : St) :
  for_each body (l1 ++ l2) s =
  match for_each body l1 s with
  | Ok _ s1 => for_each body l2 s1
  | Raise e s1 => Raise e s1
  end.
Proof.
  revert s. induction l1 as [|x l1 IH]; intros s; simpl.
  - reflexivity.
  - unfold mbind, M_bind. destruct (body x s) as [[] s1|e s1]; [apply IH | reflexivity].
Qed.

(** A loop raises exactly when one of its iterations does, after the
    iterations before it went through; the state of that iteration is the
    state the loop ends in. *)
Lemma for_each_Raise {A} (body : A → Cmd unit) (l : list A) (s s' : St) (e : Exn) :
  for_each body l s = Raise e s' ↔
  ∃ done x rest s1, l = done ++ x :: rest ∧
    for_each body done s = Ok tt s1 ∧ body x s1 = Raise e s'.
Proof.
  split.
  - revert s. induction l as [|x l IH]; intros s; simpl; [discriminate|].
    intros [H|(a & s1 & Hx & Hl)]%bind_Raise.
    + exists [], x, l, s. done.
    + destruct (IH _ Hl) as (done & y & rest & s2 & -> & Hd & Hy).
      exists (x :: done), y, rest, s2. split_and!; [done| |done].
      simpl. apply bind_Ok. destruct a. eauto.
  - intros (done & x & rest & s1 & -> & Hd & Hx).
    rewrite for_each_app, Hd. simpl. apply bind_Raise. by left.
Qed.

Lemma returned_final {A} (r : @Res IndexValues SampleMatrix A) (a : A) :
  returned r = Some a → r = Ok a (final r).
Proof. destruct r; simpl; [by intros [= ->] | discriminate]. Qed.

Lemma raised_final {A} (r : @Res IndexValues SampleMatrix A) (e : Exn) :
  raised r = Some e → r = Raise e (final r).
Proof. destruct r; simpl; [discriminate | by intros [= ->]]. Qed.

(** ** Triples *)

Lemma triple_ret {A} (P : St → Prop) (a : A) (E : St → Prop) :
  triple P (mret a) (λ b s, b = a ∧ P s) E.
Proof. intros s HP. simpl. done. Qed.

Lemma triple_bind {A B} (P : St → Prop) (m : Cmd A) (Q : A → St → Prop)
    (f : A → Cmd B) (R : B → St → Prop) (E : St → Prop) :
  triple P m Q E → (∀ a, triple (Q a) (f a) R E) → triple P (m ≫= f) R E.
Proof.
  intros Hm Hf s HP. specialize (Hm s HP). unfold mbind, M_bind.
  destruct (m s) as [a s1|e s1]; [by apply Hf | done].
Qed.

Lemma triple_conseq {A} (P P' : St → Prop) (m : Cmd A) (Q Q' : A → St → Prop)
    (E E' : St → Prop) :
  triple P' m Q' E' → (∀ s, P s → P' s) → (∀ a s, Q' a s → Q a s) →
  (∀ s, E' s → E s) → triple P m Q E.
Proof.
  intros Hm HP HQ HE s Hs. specialize (Hm s (HP s Hs)).
  destruct (m s); eauto.
Qed.

(** The loop rule, with an invariant that knows the iterations done. *)
Lemma triple_for_each {A} (I : list A → St → Prop) (E : St → Prop)
    (body : A → Cmd unit) (l : list A) :
  (∀ done x rest, l = done ++ x :: rest →
     triple (I done) (body x) (λ _, I (done ++ [x])) E) →
  triple (I []) (for_each body l) (λ _, I l) E.
Proof.
  intros Hbody. cut (∀ rest done, l = done ++ rest →
    triple (I done) (for_each body rest) (λ _, I l) E).
  { intros H. by apply (H l []). }
  induction rest as [|x rest IH]; intros done Hl.
  - intros s Hs. simpl. rewrite Hl, app_nil_r. done.
  - simpl. eapply triple_bind; [by eapply Hbody|].
    intros []. apply IH. by rewrite <- app_assoc.
Qed.

(** The loop rule for an invariant that does not count. *)
Lemma triple_for_each_inv {A} (I E : St → Prop) (body : A → Cmd unit) (l : list A) :
  (∀ x, x ∈ l → triple I (body x) (λ _, I) E) →
  triple I (for_each body l) (λ _, I) E.
Proof.
  intros Hbody. apply (triple_for_each (λ _, I)).
  intros done x rest Hl. apply Hbody. rewrite Hl. set_solver.
Qed.

(** ** Frames *)

Lemma final_bind {A B} (m : Cmd A) (f : A → Cmd B) (s : St) :
  final ((m ≫= f) s) =
  match m s with
  | Ok a s1 => final (f a s1)
  | Raise _ s1 => s1
  end.
Proof. unfold mbind, M_bind. by destruct (m s). Qed.

Lemma keeps_ret {A} (R : St → St → Prop) `{!Reflexive R} (a : A) :
  keeps R (mret a).
Proof. intros s. simpl. reflexivity. Qed.

Lemma keeps_bind {A B} (R : St → St → Prop) `{!Transitive R}
    (m : Cmd A) (f : A → Cmd B) :
  keeps R m → (∀ a, keeps R (f a)) → keeps R (m ≫= f).
Proof.
  intros Hm Hf s. rewrite final_bind. specialize (Hm s).
  destruct (m s) as [a s1|e s1]; simpl in Hm; [|done].
  transitivity s1; [done | apply Hf].
Qed.

Lemma keeps_for_each {A} (R : St → St → Prop) `{!PreOrder R}
    (body : A → Cmd unit) (l : list A) :
  (∀ x, x ∈ l → keeps R (body x)) → keeps R (for_each body l).
Proof.
  induction l as [|x l IH]; intros Hbody; simpl.
  - apply keeps_ret, _.
  - apply keeps_bind; [apply _ | apply Hbody; set_solver |].
    intros _. apply IH. intros y Hy. apply Hbody. set_solver.
Qed.

(** An invariant of every iteration, returning or raising, is an invariant
    of the loop. *)
Lemma for_each_final {A} (I : St → Prop) (body : A → Cmd unit) (l : list A) (s : St) :
  (∀ x s1, x ∈ l → I s1 → I (final (body x s1))) →
  I s → I (final (for_each body l s)).
Proof.
  intros Hbody Hs.
  assert (triple I (for_each body l) (λ _, I) I) as Hloop.
  { apply triple_for_each_inv. intros x Hx s1 H1.
    specialize (Hbody x s1 Hx H1). by destruct (body x s1). }
  specialize (Hloop s Hs). by destruct (for_each body l s).
Qed.

(** A loop whose iterations all return, keeping [I], returns. *)
Lemma for_each_returns {A} (I : St → Prop) (body : A → Cmd unit) (l : list A) (s : St) :
  (∀ x s1, x ∈ l → I s1 → ∃ s2, body x s1 = Ok tt s2 ∧ I s2) →
  I s → ∃ s', for_each body l s = Ok tt s' ∧ I s'.
Proof.
  revert s. induction l as [|x l IH]; intros s Hbody Hs; simpl.
  - by exists s.
  - destruct (Hbody x s) as (s1 & Hx & H1); [set_solver | done |].
    destruct (IH s1) as (s' & Hl & Hs'); [|done|].
    { intros y s2 Hy. apply Hbody. set_solver. }
    exists s'. split; [|done]. unfold mbind, M_bind. by rewrite Hx.
Qed.

End Logic.

(** * The drivers *)

Section Drivers.
Context {IndexValues SampleMatrix : Type}.
Variable F : Framework IndexValues SampleMatrix.
Local Abbreviation St := (State IndexValues SampleMatrix).
Local Abbreviation Kwargs := (Problem.args SampleMatrix).
Local Abbreviation SaResults := (@SaResults IndexValues).
Local Abbreviation quiet := (@quiet IndexValues SampleMatrix).
Local Abbreviation grows := (@grows IndexValues SampleMatrix).

(** ** Paths *)

Lemma with_parents_self (p : Path) : p ∈ with_parents p.
Proof.
  induction p as [|c p IH]; simpl.
  - set_solver.
  - right. apply list_elem_of_fmap. by exists p.
Qed.

Lemma mkdir_world_exists (p : Path) (w : World IndexValues) :
  p ∈ dirs (mkdir_world p w).
Proof.
  unfold mkdir_world. simpl. apply elem_of_union_r, elem_of_list_to_set, with_parents_self.
Qed.

Lemma mkdir_world_keeps (p : Path) (w : World IndexValues) :
  dirs w ⊆ dirs (mkdir_world p w).
Proof. unfold mkdir_world. simpl. set_solver. Qed.

(** ** Reading traces *)

Lemma problem_calls_app (tr1 tr2 : list (Event IndexValues SampleMatrix)) :
  problem_calls (tr1 ++ tr2) = problem_calls tr1 ++ problem_calls tr2.
Proof. unfold problem_calls. apply omap_app. Qed.

Lemma constructions_app (tr1 tr2 : list (Event IndexValues SampleMatrix)) :
  constructions (tr1 ++ tr2) = constructions tr1 ++ constructions tr2.
Proof. unfold constructions. by rewrite problem_calls_app, fmap_app. Qed.

Lemma deferrals_app (tr1 tr2 : list (Event IndexValues SampleMatrix)) :
  deferrals (tr1 ++ tr2) = deferrals tr1 ++ deferrals tr2.
Proof. unfold deferrals. apply omap_app. Qed.

(** ** The statements before the inner loop *)

Lemma model_setup_run (model_name : string) (s : St) :
  model_setup model_name s =
  match models_dict s !! model_name with
  | Some c => Ok (Entry.model c, Entry.write_dir c)
                (after_setup model_name (Entry.write_dir c) s)
  | None => Raise (KeyError model_name)
              (log (EvPrint (newline +:+ ">>> " +:+ model_name)) s)
  end.
Proof.
  unfold model_setup, after_setup, mbind, M_bind, print, models_dict_getitem, path_exists.
  simpl. destruct (models_dict s !! model_name) as [c|] eqn:Hreg; [|reflexivity].
  simpl. rewrite Hreg. simpl. destruct (bool_decide _); reflexivity.
Qed.

Lemma after_setup_exists (model_name : string) (write_dir : Path) (s : St) :
  write_dir ∈ dirs (world (after_setup model_name write_dir s)).
Proof.
  unfold after_setup. case_bool_decide as Hex; simpl.
  - exact Hex.
  - apply mkdir_world_exists.
Qed.

Lemma after_setup_keeps (model_name : string) (write_dir : Path) (s : St) :
  dirs (world s) ⊆ dirs (world (after_setup model_name write_dir s)).
Proof.
  unfold after_setup. case_bool_decide; simpl; [done | apply mkdir_world_keeps].
Qed.

Lemma after_setup_frame (model_name : string) (write_dir : Path) (s : St) :
  let s' := after_setup model_name write_dir s in
  models_dict s' = models_dict s ∧ model_evals s' = model_evals s ∧
  problem_calls (trace s') = problem_calls (trace s) ∧
  deferrals (trace s') = deferrals (trace s).
Proof.
  unfold after_setup. case_bool_decide; simpl;
    rewrite ?problem_calls_app, ?deferrals_app, ?app_nil_r; simpl;
    by rewrite ?app_nil_r.
Qed.

(** ** The result consumer *)

Lemma plot_loop_Ok (problem : Problem.t SampleMatrix) (model : Model)
    (sa_results : SaResults) (s s' : St) :
  for_each (λ '(sa_index_name, sa_index_values),
      let sa_indices := [(sa_index_name, sa_index_values)] in
      call_plot_sa_results F problem sa_indices (influential_params model))
    sa_results s = Ok tt s' →
  trace s' = trace s ++ map (plot_entry problem model) sa_results ∧
  models_dict s' = models_dict s ∧ model_evals s' = model_evals s.
Proof.
  revert s. induction sa_results as [|[n v] l IH]; intros s; simpl.
  - intros [= <-]. by rewrite app_nil_r.
  - intros ([] & s1 & Hplot & Hl)%bind_Ok.
    unfold call_plot_sa_results in Hplot.
    destruct (plot_sa_results F _ _ _ _) as [e|w']; [discriminate|].
    injection Hplot as <-. apply IH in Hl as (-> & -> & ->). simpl.
    by rewrite <- app_assoc.
Qed.

Lemma consume_results_Ok (problem : Problem.t SampleMatrix) (model : Model) (s s' : St) :
  consume_results F problem model s = Ok tt s' →
  ∃ f sa_results,
    Problem.gsa_dict problem !! "sa_results" = Some f ∧
    files (world s) !! f = Some sa_results ∧
    trace s' = trace s ++ EvLoad f :: map (plot_entry problem model) sa_results ∧
    models_dict s' = models_dict s ∧ model_evals s' = model_evals s.
Proof.
  unfold consume_results.
  intros (f & s1 & Hf & (r & s2 & Hload & Hplots)%bind_Ok)%bind_Ok.
  unfold gsa_dict_getitem in Hf.
  destruct (Problem.gsa_dict problem !! "sa_results") as [f'|] eqn:Hdict; [|discriminate].
  injection Hf as -> <-.
  unfold pickle_load in Hload.
  destruct (files (world s) !! f) as [r'|] eqn:Hfile; [|discriminate].
  injection Hload as -> <-.
  apply plot_loop_Ok in Hplots as (-> & -> & ->). simpl.
  exists f, r. split_and!; try done. by rewrite <- app_assoc.
Qed.

(** ** What the calls other than [gf.Problem] leave alone *)

#[local] Instance quiet_preorder : PreOrder quiet.
Proof.
  split.
  - intros s. by repeat split.
  - intros s1 s2 s3 (? & ? & ? & ?) (? & ? & ? & ?). repeat split; congruence.
Qed.

Lemma quiet_log (ev : Event IndexValues SampleMatrix) (s : St) :
  problem_calls [ev] = [] → deferrals [ev] = [] → quiet s (log ev s).
Proof.
  intros Hc Hd. repeat split; simpl;
    by rewrite ?problem_calls_app, ?deferrals_app, ?Hc, ?Hd, app_nil_r.
Qed.

Lemma keeps_quiet_print (line : string) : keeps quiet (print line).
Proof. intros s. by apply quiet_log. Qed.

Lemma keeps_quiet_getitem (model_name : string) :
  keeps quiet (models_dict_getitem model_name).
Proof.
  intros s. unfold models_dict_getitem.
  destruct (models_dict s !! model_name); reflexivity.
Qed.

Lemma keeps_quiet_model_setup (model_name : string) :
  keeps quiet (model_setup model_name).
Proof.
  intros s. rewrite model_setup_run.
  destruct (models_dict s !! model_name) as [c|]; simpl.
  - destruct (after_setup_frame model_name (Entry.write_dir c) s) as (? & ? & ? & ?).
    by repeat split.
  - by apply quiet_log.
Qed.

Lemma keeps_quiet_plot (problem : Problem.t SampleMatrix) (sa_indices : SaResults)
    (influential : list Z) :
  keeps quiet (call_plot_sa_results F problem sa_indices influential).
Proof.
  intros s. unfold call_plot_sa_results.
  destruct (plot_sa_results F _ _ _ _); simpl; by apply (quiet_log _ s).
Qed.

Lemma keeps_quiet_consume (problem : Problem.t SampleMatrix) (model : Model) :
  keeps quiet (consume_results F problem model).
Proof.
  unfold consume_results. apply keeps_bind; [apply _ | |].
  { intros s. unfold gsa_dict_getitem. destruct (_ !! _); reflexivity. }
  intros f. apply keeps_bind; [apply _ | |].
  { intros s. unfold pickle_load. destruct (_ !! _); simpl; by apply (quiet_log _ s). }
  intros r. apply keeps_for_each; [apply _|].
  intros [n v] _. apply keeps_quiet_plot.
Qed.

(** ** Frameworks that delete no directory *)

#[local] Instance grows_preorder : PreOrder grows.
Proof. split; unfold grows; [intros s | intros s1 s2 s3]; set_solver. Qed.

Lemma keeps_grows_model_setup (model_name : string) :
  keeps grows (model_setup model_name).
Proof.
  intros s. rewrite model_setup_run. unfold grows.
  destruct (models_dict s !! model_name) as [c|]; simpl; [apply after_setup_keeps | done].
Qed.

Lemma keeps_grows_Problem (a : Kwargs) : keeps_dirs F → keeps grows (call_Problem F a).
Proof.
  intros [HP _] s. unfold call_Problem, grows.
  destruct (gf_Problem F a (world s)) as [e|[p w']] eqn:Hgf; simpl; [done | by eapply HP].
Qed.

Lemma keeps_grows_consume (problem : Problem.t SampleMatrix) (model : Model) :
  keeps_dirs F → keeps grows (consume_results F problem model).
Proof.
  intros [_ Hplot]. unfold consume_results. apply keeps_bind; [apply _ | |].
  { intros s. unfold gsa_dict_getitem. destruct (_ !! _); reflexivity. }
  intros f. apply keeps_bind; [apply _ | |].
  { intros s. unfold pickle_load, grows. by destruct (_ !! _). }
  intros r. apply keeps_for_each; [apply _|].
  intros [n v] _ s. unfold call_plot_sa_results, grows.
  destruct (plot_sa_results F _ _ _ _) as [e|w'] eqn:Hp; simpl; [done | by eapply Hplot].
Qed.

(** ** One pair of the local driver *)

Lemma run_gsa_pair_Ok (model_name : string) (model : Model) (write_dir : Path)
    (gsa_method : string) (s s' : St) :
  run_gsa_pair F model_name model write_dir gsa_method s = Ok tt s' →
  ∃ c problem w1 f sa_results,
    let a := Problem.mkArgs "random" model gsa_method write_dir
               (Some (Entry.iterations c)) 34534 None in
    models_dict s !! model_name = Some c ∧
    gf_Problem F a (world s) = inr (problem, w1) ∧
    Problem.gsa_dict problem !! "sa_results" = Some f ∧
    files w1 !! f = Some sa_results ∧
    trace s' = trace s ++
      [EvPrint ("--- " +:+ gsa_method); EvProblem a (world s); EvLoad f] ++
      map (plot_entry problem model) sa_results ∧
    models_dict s' = models_dict s ∧ model_evals s' = model_evals s.
Proof.
  unfold run_gsa_pair.
  intros ([] & s1 & Hprint & (c & s2 & Hc & (p & s3 & Hcall & Hcons)%bind_Ok)%bind_Ok)%bind_Ok.
  unfold print in Hprint. injection Hprint as <-.
  unfold models_dict_getitem in Hc. simpl in Hc.
  destruct (models_dict s !! model_name) as [c'|] eqn:Hreg; [|discriminate].
  injection Hc as -> <-.
  unfold call_Problem in Hcall. simpl in Hcall.
  destruct (gf_Problem F _ _) as [e|[p' w1]] eqn:Hgf; [discriminate|].
  injection Hcall as -> <-.
  apply consume_results_Ok in Hcons as (f & r & Hdict & Hfile & -> & -> & ->).
  simpl in *. exists c, p, w1, f, r. split_and!; try done.
  by rewrite <- !app_assoc.
Qed.

Lemma run_gsa_pair_final (model_name : string) (model : Model) (write_dir : Path)
    (gsa_method : string) (s : St) :
  let s' := final (run_gsa_pair F model_name model write_dir gsa_method s) in
  models_dict s' = models_dict s ∧ model_evals s' = model_evals s ∧
  deferrals (trace s') = deferrals (trace s) ∧
  (problem_calls (trace s') = problem_calls (trace s) ∨
   ∃ c, models_dict s !! model_name = Some c ∧
     problem_calls (trace s') = problem_calls (trace s) ++
       [(Problem.mkArgs "random" model gsa_method write_dir
           (Some (Entry.iterations c)) 34534 None, world s)]).
Proof.
  unfold run_gsa_pair, mbind, M_bind, print, models_dict_getitem, call_Problem. simpl.
  destruct (models_dict s !! model_name) as [c|] eqn:Hreg; simpl.
  - destruct (gf_Problem F _ (world s)) as [e|[p w']] eqn:Hgf; simpl.
    + rewrite !problem_calls_app, !deferrals_app. simpl. rewrite !app_nil_r.
      split_and!; try done. right. by exists c.
    + match goal with |- context [consume_results F p model ?s0] =>
        destruct (keeps_quiet_consume p model s0) as (-> & -> & -> & ->) end.
      simpl. rewrite !problem_calls_app, !deferrals_app. simpl. rewrite !app_nil_r.
      split_and!; try done. right. by exists c.
  - rewrite problem_calls_app, deferrals_app. simpl. rewrite !app_nil_r.
    split_and!; try done. by left.
Qed.

Lemma keeps_grows_run_gsa_pair (model_name : string) (model : Model) (write_dir : Path)
    (gsa_method : string) :
  keeps_dirs F → keeps grows (run_gsa_pair F model_name model write_dir gsa_method).
Proof.
  intros HF. unfold run_gsa_pair.
  apply keeps_bind; [apply _ | intros s; by unfold grows |]. intros _.
  apply keeps_bind; [apply _ | |].
  { intros s. unfold models_dict_getitem. destruct (_ !! _); reflexivity. }
  intros c. apply keeps_bind; [apply _ | by apply keeps_grows_Problem |].
  intros p. by apply keeps_grows_consume.
Qed.

(** ** The local driver, whatever its outcome *)

Lemma run_gsa_final (model_names gsa_methods : list string) (s : St) :
  let s' := final (run_gsa F model_names gsa_methods s) in
  models_dict s' = models_dict s ∧ model_evals s' = model_evals s ∧
  deferrals (trace s') = deferrals (trace s) ∧
  ∃ new, problem_calls (trace s') = problem_calls (trace s) ++ new ∧
    Forall (issued_call F run_gsa_kwargs (models_dict s) model_names gsa_methods) new.
Proof.
  set (reg := models_dict s).
  set (I := λ s1 : St,
    models_dict s1 = reg ∧ model_evals s1 = model_evals s ∧
    deferrals (trace s1) = deferrals (trace s) ∧
    ∃ new, problem_calls (trace s1) = problem_calls (trace s) ++ new ∧
      Forall (issued_call F run_gsa_kwargs reg model_names gsa_methods) new).
  apply (for_each_final I).
  2:{ unfold I. split_and!; try done. exists []. by rewrite app_nil_r. }
  intros m s1 Hm H1. unfold run_gsa_model. rewrite final_bind, model_setup_run.
  destruct H1 as (Hreg1 & Hev1 & Hdef1 & new1 & Hcalls1 & Hnew1).
  destruct (models_dict s1 !! m) as [c|] eqn:Hc.
  2:{ unfold I. simpl. rewrite problem_calls_app, deferrals_app. simpl.
      rewrite !app_nil_r. split_and!; try done. by exists new1. }
  destruct (after_setup_frame m (Entry.write_dir c) s1) as (Hreg2 & Hev2 & Hcalls2 & Hdef2).
  pose proof (after_setup_exists m (Entry.write_dir c) s1) as Hdir.
  revert Hreg2 Hev2 Hcalls2 Hdef2 Hdir.
  generalize (after_setup m (Entry.write_dir c) s1). intros s2 Hreg2 Hev2 Hcalls2 Hdef2 Hdir.
  apply (for_each_final (λ s3, I s3 ∧ Entry.write_dir c ∈ dirs (world s2) ∧
                               (keeps_dirs F → grows s2 s3))).
  2:{ split_and!; [|done|done].
      unfold I. rewrite Hreg2, Hev2, Hcalls2, Hdef2. split_and!; try done. by exists new1. }
  intros g s3 Hg ((Hreg3 & Hev3 & Hdef3 & new3 & Hcalls3 & Hnew3) & _ & Hgrow3).
  pose proof (run_gsa_pair_final m (Entry.model c) (Entry.write_dir c) g s3) as Hfin.
  simpl in Hfin. destruct Hfin as (Hreg4 & Hev4 & Hdef4 & Hcalls4).
  split_and!; [|done|].
  2:{ intros HF. transitivity s3; [by apply Hgrow3|].
      by apply keeps_grows_run_gsa_pair. }
  unfold I. rewrite Hreg4, Hev4, Hdef4. split_and!; try done.
  destruct Hcalls4 as [->|(c' & Hc' & ->)]; [by exists new3|].
  exists (new3 ++ [(Problem.mkArgs "random" (Entry.model c) g (Entry.write_dir c)
                      (Some (Entry.iterations c')) 34534 None, world s3)]).
  rewrite Hcalls3, app_assoc. split; [done|].
  apply Forall_app. split; [done|]. apply Forall_singleton.
  assert (c' = c) as -> by congruence.
  exists m, g, c. split_and!; try done; [congruence|].
  simpl. intros HF. by apply (Hgrow3 HF).
Qed.

(** ** The local driver, when it runs to its end *)

Lemma built_by_functional (kw : Entry.t → string → Kwargs) (reg : gmap string Entry.t)
    (pairs : list (string * string)) (l1 l2 : list Kwargs) :
  Forall2 (built_by kw reg) pairs l1 → Forall2 (built_by kw reg) pairs l2 → l1 = l2.
Proof.
  intros H1. revert l2. induction H1 as [|pair a pairs l1 (c & Hc & ->) _ IH];
    intros l2 H2; inversion H2 as [|? a2 ? l2' (c2 & Hc2 & ->) Hrest]; subst; [done|].
  f_equal; [congruence | by apply IH].
Qed.

Lemma built_by_methods (kw : Entry.t → string → Kwargs) (reg : gmap string Entry.t)
    (model_name : string) (c : Entry.t) (gsa_methods : list string) :
  reg !! model_name = Some c →
  Forall2 (built_by kw reg) (map (pair model_name) gsa_methods) (map (kw c) gsa_methods).
Proof.
  intros Hc. induction gsa_methods as [|g l IH]; simpl; constructor; [|done].
  by exists c.
Qed.

Lemma constructions_plots (problem : Problem.t SampleMatrix) (model : Model)
    (sa_results : SaResults) :
  constructions (map (plot_entry problem model) sa_results) = [].
Proof. by induction sa_results. Qed.

Lemma run_gsa_methods_Ok (model_name : string) (c : Entry.t) (model : Model)
    (write_dir : Path) (gsa_methods : list string) (s s' : St) :
  models_dict s !! model_name = Some c →
  for_each (run_gsa_pair F model_name model write_dir) gsa_methods s = Ok tt s' →
  models_dict s' = models_dict s ∧
  constructions (trace s') = constructions (trace s) ++
    map (λ g, Problem.mkArgs "random" model g write_dir
                (Some (Entry.iterations c)) 34534 None) gsa_methods.
Proof.
  revert s. induction gsa_methods as [|g l IH]; intros s Hc; simpl.
  - intros [= <-]. by rewrite app_nil_r.
  - intros ([] & s1 & Hpair & Hl)%bind_Ok.
    apply run_gsa_pair_Ok in Hpair
      as (c' & p & w1 & f & r & Hc' & _ & _ & _ & Htr & Hreg & _).
    assert (c' = c) as -> by congruence.
    apply IH in Hl as [-> ->]; [|congruence].
    rewrite Htr, !constructions_app, constructions_plots. simpl.
    split; [done|]. by rewrite <- app_assoc.
Qed.

Lemma run_gsa_Ok (model_names gsa_methods : list string) (s s' : St) :
  run_gsa F model_names gsa_methods s = Ok tt s' →
  models_dict s' = models_dict s ∧
  ∃ new, constructions (trace s') = constructions (trace s) ++ new ∧
    Forall2 (built_by run_gsa_kwargs (models_dict s))
      (list_prod model_names gsa_methods) new.
Proof.
  unfold run_gsa. revert s. induction model_names as [|m names IH]; intros s; simpl.
  - intros [= <-]. split; [done|]. exists []. by rewrite app_nil_r.
  - intros ([] & s1 & Hmodel & Hrest)%bind_Ok.
    unfold run_gsa_model in Hmodel.
    apply bind_Ok in Hmodel as ([model wd] & s0 & Hsetup & Hloop).
    rewrite model_setup_run in Hsetup.
    destruct (models_dict s !! m) as [c|] eqn:Hc; [|discriminate].
    injection Hsetup as <- <- <-.
    destruct (after_setup_frame m (Entry.write_dir c) s) as (Hreg0 & _ & Hcalls0 & _).
    apply (run_gsa_methods_Ok m c) in Hloop as [Hreg1 Htr1]; [|congruence].
    apply IH in Hrest as (Hreg' & new & Htr' & Hnew).
    split; [congruence|].
    exists (map (run_gsa_kwargs c) gsa_methods ++ new). split.
    + assert (constructions (trace (after_setup m (Entry.write_dir c) s)) =
              constructions (trace s)) as Hsame
        by (unfold constructions; by rewrite Hcalls0).
      by rewrite Htr', Htr1, Hsame, <- app_assoc.
    + apply Forall2_app; [by apply built_by_methods|].
      by rewrite Hreg1, Hreg0 in Hnew.
Qed.

(** ** One pair of the dask-capable driver *)

(** The inner loop body, run in a state whose registry has the model. *)
Lemma delayed_pair_run (use_dask : bool) (model_name : string) (c : Entry.t)
    (gsa_method : string) (s : St) :
  models_dict s !! model_name = Some c →
  delayed_pair F use_dask model_name (Entry.model c) (Entry.write_dir c) gsa_method s =
  let a := delayed_kwargs c gsa_method in
  let s1 := log (EvPrint (delayed_line (Entry.model c) gsa_method (Problem.iterations a))) s in
  if use_dask
  then Ok tt (set_model_evals (model_evals s ++ [Deferred a]) (log (EvDelayed a) s1))
  else match gf_Problem F a (world s) with
       | inl e => Raise e (log (EvProblem a (world s)) s1)
       | inr (p, w') =>
           Ok tt (set_model_evals (model_evals s ++ [Built p])
                    (set_world w' (log (EvProblem a (world s)) s1)))
       end.
Proof.
  intros Hc.
  unfold delayed_pair, delayed_kwargs, delayed_line, mbind, M_bind, print,
    models_dict_getitem, problem_per_worker, delayed_Problem, call_Problem,
    model_evals_append, mbind, M_bind.
  simpl.
  destruct (String.eqb gsa_method "eFAST_indices"); simpl;
    [|destruct (String.eqb gsa_method "correlation_coefficients"); simpl;
      [|rewrite Hc; simpl]];
    (destruct use_dask; simpl; [reflexivity|];
     by destruct (gf_Problem F _ (world s)) as [e|[p w']]).
Qed.

Lemma keeps_grows_compute_task (t : Task SampleMatrix) :
  keeps_dirs F → keeps grows (compute_task F t).
Proof.
  intros HF. destruct t as [p|a]; simpl.
  - apply keeps_ret, _.
  - apply keeps_bind; [apply _ | by apply keeps_grows_Problem |].
    intros p. apply keeps_ret, _.
Qed.

(** ** The dask-capable notebook, whatever its outcome *)

Lemma pending_task_grows (reg : gmap string Entry.t) (names methods : list string)
    (w w' : World IndexValues) (t : Task SampleMatrix) :
  (keeps_dirs F → dirs w ⊆ dirs w') →
  pending_task F reg names methods w t → pending_task F reg names methods w' t.
Proof.
  intros Hsub. destruct t as [p|a]; [done|].
  intros (m & g & c & Hm & Hg & Hc & Ha & Hdir).
  exists m, g, c. split_and!; try done. simpl in *. intros HF.
  by apply (Hsub HF), Hdir.
Qed.

Lemma delayed_pair_inv (use_dask : bool) (reg : gmap string Entry.t)
    (names methods : list string) (m g : string) (c : Entry.t) (s0 s : St) :
  m ∈ names → g ∈ methods → reg !! m = Some c →
  (keeps_dirs F → Entry.write_dir c ∈ dirs (world s)) →
  delayed_inv F reg names methods s0 s →
  let s' := final (delayed_pair F use_dask m (Entry.model c) (Entry.write_dir c) g s) in
  delayed_inv F reg names methods s0 s' ∧ (keeps_dirs F → grows s s').
Proof.
  intros Hm Hg Hc Hdir (Hreg & (new & Hcalls & Hnew) & Hevals).
  rewrite delayed_pair_run by congruence.
  assert (issued_call F delayed_kwargs reg names methods (delayed_kwargs c g, world s)) as Hcall.
  { exists m, g, c. by split_and!. }
  assert (Forall (issued_call F delayed_kwargs reg names methods)
            (new ++ [(delayed_kwargs c g, world s)])) as Hnew'.
  { apply Forall_app. split; [done|]. by apply Forall_singleton. }
  destruct use_dask; simpl.
  - split; [|intros _; by unfold grows].
    unfold delayed_inv. simpl. split_and!; [done| |].
    + exists new. rewrite !problem_calls_app. simpl. by rewrite !app_nil_r.
    + apply Forall_app. split; [done|]. by apply Forall_singleton.
  - destruct (gf_Problem F _ (world s)) as [e|[p w']] eqn:Hgf; simpl.
    + split; [|intros _; by unfold grows].
      unfold delayed_inv. simpl. split_and!; [done| |done].
      exists (new ++ [(delayed_kwargs c g, world s)]).
      rewrite !problem_calls_app, Hcalls. simpl. by rewrite app_nil_r, app_assoc.
    + assert (keeps_dirs F → dirs (world s) ⊆ dirs w') as Hgrow.
      { intros [HP _]. by eapply HP. }
      split; [|done].
      unfold delayed_inv. simpl. split_and!; [done| |].
      * exists (new ++ [(delayed_kwargs c g, world s)]).
        rewrite !problem_calls_app, Hcalls. simpl. by rewrite app_nil_r, app_assoc.
      * apply Forall_app. split; [|by apply Forall_singleton].
        eapply Forall_impl; [exact Hevals|]. intros t. by apply pending_task_grows.
Qed.

Lemma delayed_cell_final (use_dask : bool) (model_names gsa_methods : list string) (s : St) :
  delayed_inv F (models_dict s) model_names gsa_methods s
    (final (delayed_cell F use_dask model_names gsa_methods s)).
Proof.
  set (reg := models_dict s). unfold delayed_cell, mbind at 1, M_bind at 1.
  apply (for_each_final (delayed_inv F reg model_names gsa_methods s)).
  2:{ split_and!; simpl; [done| |done]. exists []. by rewrite app_nil_r. }
  intros m s1 Hm H1. unfold delayed_model. rewrite final_bind, model_setup_run.
  destruct H1 as (Hreg1 & (new1 & Hcalls1 & Hnew1) & Hevals1).
  destruct (models_dict s1 !! m) as [c|] eqn:Hc.
  2:{ split_and!; simpl; [done| |done]. exists new1.
      by rewrite problem_calls_app, app_nil_r. }
  destruct (after_setup_frame m (Entry.write_dir c) s1) as (Hreg2 & Hev2 & Hcalls2 & _).
  pose proof (after_setup_exists m (Entry.write_dir c) s1) as Hdir.
  pose proof (after_setup_keeps m (Entry.write_dir c) s1) as Hkeep.
  revert Hreg2 Hev2 Hcalls2 Hdir Hkeep.
  generalize (after_setup m (Entry.write_dir c) s1). intros s2 Hreg2 Hev2 Hcalls2 Hdir Hkeep.
  cut (delayed_inv F reg model_names gsa_methods s
         (final (for_each (delayed_pair F use_dask m (Entry.model c) (Entry.write_dir c))
                   gsa_methods s2)) ∧
       (keeps_dirs F → grows s2
         (final (for_each (delayed_pair F use_dask m (Entry.model c) (Entry.write_dir c))
                   gsa_methods s2)))).
  { by intros [? _]. }
  apply (for_each_final (λ s3, delayed_inv F reg model_names gsa_methods s s3 ∧
                               (keeps_dirs F → grows s2 s3))).
  2:{ split; [|by intros _]. split_and!; [congruence| |].
      - exists new1. by rewrite Hcalls2.
      - rewrite Hev2. eapply Forall_impl; [exact Hevals1|].
        intros t. by apply pending_task_grows. }
  intros g s3 Hg [H3 Hgrow3].
  assert (reg !! m = Some c) as Hc' by congruence.
  assert (keeps_dirs F → Entry.write_dir c ∈ dirs (world s3)) as Hdir3.
  { intros HF. by apply (Hgrow3 HF). }
  destruct (delayed_pair_inv use_dask reg model_names gsa_methods m g c s s3
              Hm Hg Hc' Hdir3 H3) as [H4 Hgrow4].
  split; [done|]. intros HF. transitivity s3; [by apply Hgrow3 | by apply Hgrow4].
Qed.

Lemma compute_tasks_final (reg : gmap string Entry.t) (names methods : list string)
    (tasks : list (Task SampleMatrix)) (s0 s : St) :
  delayed_inv F reg names methods s0 s →
  Forall (pending_task F reg names methods (world s)) tasks →
  let s' := final (for_each (compute_task F) tasks s) in
  delayed_inv F reg names methods s0 s' ∧ model_evals s' = model_evals s.
Proof.
  intros Hinv Htasks.
  cut (let s' := final (for_each (compute_task F) tasks s) in
       (delayed_inv F reg names methods s0 s' ∧ model_evals s' = model_evals s) ∧
       (keeps_dirs F → grows s s')).
  { by intros [? _]. }
  apply (for_each_final (λ s1,
    (delayed_inv F reg names methods s0 s1 ∧ model_evals s1 = model_evals s) ∧
    (keeps_dirs F → grows s s1))).
  2:{ by split_and!. }
  intros t s1 Ht [[(Hreg & (new & Hcalls & Hnew) & Hevals) Hsame] Hgrow].
  assert (pending_task F reg names methods (world s1) t) as Hready.
  { eapply pending_task_grows; [exact Hgrow|]. by eapply Forall_forall in Htasks. }
  split.
  2:{ intros HF. transitivity s1; [by apply Hgrow | by apply keeps_grows_compute_task]. }
  unfold delayed_inv.
  destruct t as [p|a]; simpl; [by split_and!; [|exists new|..]|].
  unfold mbind, M_bind, call_Problem. simpl.
  assert (keeps_dirs F → ∀ p w', gf_Problem F a (world s1) = inr (p, w') →
          dirs (world s1) ⊆ dirs w') as Hgf'.
  { intros [HP _] p w' Hgf. by eapply HP. }
  destruct (gf_Problem F a (world s1)) as [e|[p w']] eqn:Hgf; simpl.
  - split_and!; try done. exists (new ++ [(a, world s1)]).
    rewrite problem_calls_app, Hcalls. simpl. rewrite app_assoc. split; [done|].
    apply Forall_app. split; [done|]. by apply Forall_singleton.
  - split_and!; try done.
    + exists (new ++ [(a, world s1)]).
      rewrite problem_calls_app, Hcalls. simpl. rewrite app_assoc. split; [done|].
      apply Forall_app. split; [done|]. by apply Forall_singleton.
    + eapply Forall_impl; [exact Hevals|]. intros t.
      apply pending_task_grows. intros HF. by eapply Hgf'.
Qed.

Lemma delayed_notebook_final (use_dask : bool) (model_names gsa_methods : list string) (s : St) :
  scheduler_fair F →
  let s' := final (delayed_notebook F use_dask model_names gsa_methods s) in
  models_dict s' = models_dict s ∧
  ∃ new, problem_calls (trace s') = problem_calls (trace s) ++ new ∧
    Forall (issued_call F delayed_kwargs (models_dict s) model_names gsa_methods) new.
Proof.
  intros Hfair. unfold delayed_notebook. simpl. rewrite final_bind.
  pose proof (delayed_cell_final use_dask model_names gsa_methods s) as Hcell.
  destruct (delayed_cell F use_dask model_names gsa_methods s) as [[] s1|e s1]; simpl in *.
  - unfold dask_compute.
    destruct (compute_tasks_final (models_dict s) model_names gsa_methods
                (dask_schedule F (model_evals s1)) s s1 Hcell) as [(? & ? & _) _].
    + destruct Hcell as (_ & _ & Hevals). by rewrite (Hfair (model_evals s1)).
    + done.
  - by destruct Hcell as (? & ? & _).
Qed.

(** ** The dask-capable notebook, when it runs to its end *)

Lemma delayed_added_nil (use_dask : bool) (s : St) : delayed_added use_dask [] s s.
Proof.
  split_and!; [done|by destruct use_dask; rewrite app_nil_r..|].
  exists []. by rewrite app_nil_r.
Qed.

Lemma delayed_added_app (use_dask : bool) (new1 new2 : list Kwargs) (s s1 s2 : St) :
  delayed_added use_dask new1 s s1 → delayed_added use_dask new2 s1 s2 →
  delayed_added use_dask (new1 ++ new2) s s2.
Proof.
  intros (Hreg1 & Hc1 & Hd1 & t1 & He1 & Ht1) (Hreg2 & Hc2 & Hd2 & t2 & He2 & Ht2).
  split_and!; [congruence| | |].
  - rewrite Hc2, Hc1, <- app_assoc. by destruct use_dask.
  - rewrite Hd2, Hd1, <- app_assoc. by destruct use_dask.
  - exists (t1 ++ t2). rewrite He2, He1, <- app_assoc. split; [done|].
    by apply Forall2_app.
Qed.

Lemma delayed_pair_Ok (use_dask : bool) (model_name : string) (c : Entry.t)
    (gsa_method : string) (s s' : St) :
  models_dict s !! model_name = Some c →
  delayed_pair F use_dask model_name (Entry.model c) (Entry.write_dir c) gsa_method s
    = Ok tt s' →
  delayed_added use_dask [delayed_kwargs c gsa_method] s s'.
Proof.
  intros Hc. rewrite (delayed_pair_run _ _ c) by done. simpl.
  unfold delayed_added. destruct use_dask.
  - intros [= <-]. simpl. rewrite !constructions_app, !deferrals_app. simpl.
    rewrite !app_nil_r. split_and!; try done.
    exists [Deferred (delayed_kwargs c gsa_method)]. split; [done|].
    by constructor.
  - destruct (gf_Problem F _ (world s)) as [e|[p w']]; [discriminate|].
    intros [= <-]. simpl. rewrite !constructions_app, !deferrals_app. simpl.
    rewrite !app_nil_r. split_and!; try done.
    exists [Built p]. split; [done|]. constructor; [by exists p | constructor].
Qed.

Lemma delayed_methods_Ok (use_dask : bool) (model_name : string) (c : Entry.t)
    (gsa_methods : list string) (s s' : St) :
  models_dict s !! model_name = Some c →
  for_each (delayed_pair F use_dask model_name (Entry.model c) (Entry.write_dir c))
    gsa_methods s = Ok tt s' →
  delayed_added use_dask (map (delayed_kwargs c) gsa_methods) s s'.
Proof.
  revert s. induction gsa_methods as [|g l IH]; intros s Hc; simpl.
  - intros [= <-]. apply delayed_added_nil.
  - intros ([] & s1 & Hpair & Hl)%bind_Ok.
    apply (delayed_pair_Ok _ _ c) in Hpair; [|done].
    apply (delayed_added_app _ [_] _ s s1 s'); [done|].
    apply IH; [|done]. destruct Hpair as (Hreg & _). congruence.
Qed.

Lemma delayed_models_Ok (use_dask : bool) (model_names gsa_methods : list string) (s s' : St) :
  for_each (delayed_model F use_dask gsa_methods) model_names s = Ok tt s' →
  ∃ new, Forall2 (built_by delayed_kwargs (models_dict s))
           (list_prod model_names gsa_methods) new ∧
    delayed_added use_dask new s s'.
Proof.
  revert s. induction model_names as [|m names IH]; intros s; simpl.
  - intros [= <-]. exists []. split; [constructor | apply delayed_added_nil].
  - intros ([] & s1 & Hmodel & Hrest)%bind_Ok.
    unfold delayed_model in Hmodel.
    apply bind_Ok in Hmodel as ([model wd] & s0 & Hsetup & Hloop).
    rewrite model_setup_run in Hsetup.
    destruct (models_dict s !! m) as [c|] eqn:Hc; [|discriminate].
    injection Hsetup as <- <- <-.
    destruct (after_setup_frame m (Entry.write_dir c) s) as (Hreg0 & Hev0 & Hcalls0 & Hdef0).
    apply (delayed_methods_Ok _ m c) in Hloop; [|congruence].
    apply IH in Hrest as (new & Hnew & Hadd).
    exists (map (delayed_kwargs c) gsa_methods ++ new). split.
    + apply Forall2_app; [by apply built_by_methods|].
      destruct Hloop as (Hreg1 & _). by rewrite Hreg1, Hreg0 in Hnew.
    + apply (delayed_added_app _ _ _ s s1 s'); [|done].
      destruct Hloop as (Hreg1 & Hc1 & Hd1 & Ht1).
      unfold delayed_added, constructions in *.
      by rewrite <- Hreg0, <- Hev0, <- Hcalls0, <- Hdef0.
Qed.

Lemma delayed_cell_Ok (use_dask : bool) (model_names gsa_methods : list string) (s s' : St) :
  delayed_cell F use_dask model_names gsa_methods s = Ok tt s' →
  ∃ new, Forall2 (built_by delayed_kwargs (models_dict s))
           (list_prod model_names gsa_methods) new ∧
    models_dict s' = models_dict s ∧
    constructions (trace s') = constructions (trace s) ++ (if use_dask then [] else new) ∧
    deferrals (trace s') = deferrals (trace s) ++ (if use_dask then new else []) ∧
    Forall2 (task_for use_dask) new (model_evals s').
Proof.
  unfold delayed_cell. intros ([] & s1 & [= <-] & Hloop)%bind_Ok.
  apply delayed_models_Ok in Hloop as (new & Hnew & Hreg & Hc & Hd & tasks & He & Ht).
  exists new. simpl in *. by rewrite He.
Qed.




Lemma task_for_deferred (new : list Kwargs) (tasks : list (Task SampleMatrix)) :
  Forall2 (task_for true) new tasks → tasks = Deferred <$> new.
Proof. induction 1 as [|a t new tasks -> _ IH]; simpl; by f_equal. Qed.


(** ** Runs that return *)

Lemma run_gsa_pair_returns (model_name : string) (c : Entry.t) (model : Model)
    (write_dir : Path) (gsa_method : string) (s : St) :
  dependable F → models_dict s !! model_name = Some c →
  ∃ s', run_gsa_pair F model_name model write_dir gsa_method s = Ok tt s' ∧
        models_dict s' = models_dict s.
Proof.
  intros [HP Hplot] Hc.
  cut (∃ s', run_gsa_pair F model_name model write_dir gsa_method s = Ok tt s').
  { intros [s' Hs']. exists s'. split; [done|].
    by apply run_gsa_pair_Ok in Hs' as (? & ? & ? & ? & ? & _ & _ & _ & _ & _ & ? & _). }
  unfold run_gsa_pair, consume_results, mbind, M_bind, print, models_dict_getitem,
    call_Problem, gsa_dict_getitem, pickle_load. simpl. rewrite Hc. simpl.
  destruct (HP (Problem.mkArgs "random" model gsa_method write_dir
                  (Some (Entry.iterations c)) 34534 None) (world s))
    as (p & w' & f & r & -> & Hdict & Hfile).
  simpl. rewrite Hdict. simpl. unfold SaResults in *. rewrite Hfile. simpl.
  match goal with |- ∃ s', for_each ?body r ?s0 = _ =>
    destruct (for_each_returns (λ _, True) body r s0) as (s' & Hs' & _) end;
    [|done|by exists s'].
  intros [n v] s1 _ _. unfold call_plot_sa_results.
  destruct (Hplot p [(n, v)] (influential_params model) (world s1)) as [w1 ->].
  by eexists.
Qed.

Lemma run_gsa_returns (model_names gsa_methods : list string) (s : St) :
  dependable F → registered (models_dict s) model_names →
  ∃ s', run_gsa F model_names gsa_methods s = Ok tt s'.
Proof.
  intros HF Hreg. set (reg := models_dict s).
  destruct (for_each_returns (λ s1, models_dict s1 = reg)
              (run_gsa_model F gsa_methods) model_names s) as (s' & Hs' & _);
    [|done|by exists s'].
  intros m s1 Hm H1. unfold run_gsa_model, mbind at 1, M_bind at 1.
  rewrite model_setup_run.
  destruct (proj1 (Forall_forall _ _) Hreg m Hm) as [c Hc].
  rewrite H1. fold reg in Hc. rewrite Hc.
  destruct (after_setup_frame m (Entry.write_dir c) s1) as (Hreg2 & _).
  apply for_each_returns; [|congruence].
  intros g s2 _ H2.
  destruct (run_gsa_pair_returns m c (Entry.model c) (Entry.write_dir c) g s2 HF)
    as (s3 & Hs3 & Hreg3); [congruence|].
  exists s3. split; [done | congruence].
Qed.

Lemma delayed_cell_returns (use_dask : bool) (model_names gsa_methods : list string)
    (s : St) :
  (use_dask = false → constructs F) → registered (models_dict s) model_names →
  ∃ s', delayed_cell F use_dask model_names gsa_methods s = Ok tt s'.
Proof.
  intros HF Hreg. set (reg := models_dict s).
  unfold delayed_cell, mbind at 1, M_bind at 1.
  destruct (for_each_returns (λ s1, models_dict s1 = reg)
              (delayed_model F use_dask gsa_methods) model_names
              (set_model_evals [] s)) as (s' & Hs' & _);
    [|done|by exists s'].
  intros m s1 Hm H1. unfold delayed_model, mbind at 1, M_bind at 1.
  rewrite model_setup_run.
  destruct (proj1 (Forall_forall _ _) Hreg m Hm) as [c Hc].
  rewrite H1. fold reg in Hc. rewrite Hc.
  destruct (after_setup_frame m (Entry.write_dir c) s1) as (Hreg2 & _).
  apply for_each_returns; [|congruence].
  intros g s2 _ H2. rewrite (delayed_pair_run _ _ c) by congruence. simpl.
  destruct use_dask; [by eexists|].
  destruct (HF eq_refl (delayed_kwargs c g) (world s2)) as (p & w' & ->).
  by eexists.
Qed.


End Drivers.

(** * The properties of the notebooks *)

Section Properties.
Context {IndexValues SampleMatrix : Type}.
Local Abbreviation St := (State IndexValues SampleMatrix).
Local Abbreviation Kwargs := (Problem.args SampleMatrix).
Local Abbreviation SaResults := (@SaResults IndexValues).
Local Abbreviation Fw := (Framework IndexValues SampleMatrix).

(** ** Pairs in order *)

Lemma NoDup_list_prod {A B} (l : list A) (l' : list B) :
  NoDup l → NoDup l' → NoDup (list_prod l l').
Proof.
  intros Hl Hl'. induction Hl as [|x l Hx Hl IH]; simpl; [constructor|].
  apply NoDup_app. split_and!.
  - apply (NoDup_fmap_2 _), Hl'.
  - intros [a b] [b' [[= -> ->] _]]%list_elem_of_fmap Hin.
    apply list_elem_of_In, in_prod_iff in Hin as [Hin _].
    by apply Hx, list_elem_of_In.
  - exact IH.
Qed.

(** ** The registry is only read *)

Lemma compute_keeps_registry (F : Fw) (tasks : list (Task SampleMatrix)) (s : St) :
  models_dict (final (for_each (compute_task F) tasks s)) = models_dict s.
Proof.
  apply (for_each_final (λ s1, models_dict s1 = models_dict s)); [|done].
  intros t s1 _ H1. destruct t as [p|a]; simpl; [done|].
  unfold mbind, M_bind, call_Problem.
  by destruct (gf_Problem F a (world s1)) as [e|[p w']].
Qed.

(** C7: neither the local driver, nor the loop cell of the dask-capable
    notebook, nor that cell followed by [dask.compute], changes
    [models_dict]: in the state any of them ends in, after returning or
    after raising, the registry is the map it was at the start, with the
    same names and the same four fields under each name. *)
Theorem registry_read_only (F : Fw) (use_dask : bool)
    (model_names gsa_methods : list string) (s : St) :
  models_dict (final (run_gsa F model_names gsa_methods s)) = models_dict s ∧
  models_dict (final (delayed_cell F use_dask model_names gsa_methods s)) = models_dict s ∧
  models_dict (final (delayed_notebook F use_dask model_names gsa_methods s)) = models_dict s.
Proof.
  split_and!.
  - by destruct (run_gsa_final F model_names gsa_methods s) as (Hreg & _).
  - by destruct (delayed_cell_final F use_dask model_names gsa_methods s) as (Hreg & _).
  - unfold delayed_notebook. rewrite final_bind.
    pose proof (delayed_cell_final F use_dask model_names gsa_methods s) as (Hreg & _).
    destruct (delayed_cell F use_dask model_names gsa_methods s) as [[] s1|e s1];
      simpl in Hreg; [|done].
    unfold dask_compute. by rewrite compute_keeps_registry.
Qed.

(** ** The descriptors *)

Lemma issued_calls_constructions (F : Fw) (kw : Entry.t → string → Kwargs)
    (P : Kwargs → Prop) (reg : gmap string Entry.t) (names methods : list string)
    (calls : list (Kwargs * World IndexValues)) :
  (∀ m g c, m ∈ names → g ∈ methods → reg !! m = Some c → P (kw c g)) →
  Forall (issued_call F kw reg names methods) calls → Forall P calls.*1.
Proof.
  intros HP Hcalls. apply Forall_fmap. eapply Forall_impl; [exact Hcalls|].
  intros [a w] (m & g & c & Hm & Hg & Hc & Ha & _). simpl in *. subst a. by eapply HP.
Qed.


(** ** Output directories *)


(** ** One descriptor per pair *)

Lemma delayed_cell_worker_kwargs (F : Fw) (use_dask : bool) (w : World IndexValues)
    (reg : gmap string Entry.t) (model_names gsa_methods : list string) (s' : St) :
  delayed_cell F use_dask model_names gsa_methods (notebook_start w reg) = Ok tt s' →
  Forall2 (built_by delayed_kwargs reg) (list_prod model_names gsa_methods)
    (worker_kwargs use_dask (trace s')) ∧
  Forall2 (task_for use_dask) (worker_kwargs use_dask (trace s')) (model_evals s') ∧
  (use_dask = true → constructions (trace s') = []).
Proof.
  intros (new & Hnew & _ & Hc & Hd & Htasks)%delayed_cell_Ok.
  simpl in *. unfold worker_kwargs. destruct use_dask; by rewrite ?Hc, ?Hd.
Qed.

(** C1: in a full run, the descriptors are those of the selected pairs,
    one per pair, in the order of the pairs, model names first and methods
    within a model name: the local driver's [gf.Problem] calls, and in the
    dask-capable notebook the calls of [problem_per_worker] and the
    elements of [model_evals].  Their number is the number of model names
    times the number of methods ([n_workers]), and when no name and no
    method is selected twice no pair occurs twice.  The run is full when
    the selected names are in the registry and the framework does its
    part. *)
Theorem one_problem_per_pair (F : Fw) (w : World IndexValues) (reg : gmap string Entry.t)
    (model_names gsa_methods : list string) :
  let pairs := list_prod model_names gsa_methods in
  (NoDup model_names → NoDup gsa_methods → NoDup pairs) ∧
  (∀ s', run_gsa F model_names gsa_methods (notebook_start w reg) = Ok tt s' →
     Forall2 (built_by run_gsa_kwargs reg) pairs (constructions (trace s')) ∧
     length (constructions (trace s')) = (length model_names * length gsa_methods)%nat) ∧
  (∀ use_dask s',
     delayed_cell F use_dask model_names gsa_methods (notebook_start w reg) = Ok tt s' →
     Forall2 (built_by delayed_kwargs reg) pairs (worker_kwargs use_dask (trace s')) ∧
     Forall2 (task_for use_dask) (worker_kwargs use_dask (trace s')) (model_evals s') ∧
     length (model_evals s') = n_workers gsa_methods model_names) ∧
  (dependable F → registered reg model_names →
     ∃ s', run_gsa F model_names gsa_methods (notebook_start w reg) = Ok tt s') ∧
  (∀ use_dask, (use_dask = false → constructs F) → registered reg model_names →
     ∃ s', delayed_cell F use_dask model_names gsa_methods (notebook_start w reg)
           = Ok tt s').
Proof.
  intros pairs. split_and!.
  - apply NoDup_list_prod.
  - intros s' (_ & new & Htr & Hnew)%run_gsa_Ok. simpl in *. subst new.
    split; [done|]. apply Forall2_length in Hnew. rewrite <- Hnew.
    apply length_prod.
  - intros use_dask s' (Hpairs & Htasks & _)%delayed_cell_worker_kwargs.
    split_and!; [done..|].
    apply Forall2_length in Hpairs, Htasks. rewrite <- Htasks, <- Hpairs.
    unfold pairs, n_workers. rewrite length_prod. apply Nat.mul_comm.
  - intros HF Hreg. by apply run_gsa_returns.
  - intros use_dask HF Hreg. by apply delayed_cell_returns.
Qed.

(** ** Deferred and local execution *)


(** ** Iteration counts of the dask-capable driver *)

Lemma delayed_kwargs_iterations (c : Entry.t) (g : string) :
  overridden_iterations c g (delayed_kwargs (SampleMatrix := SampleMatrix) c g).
Proof.
  unfold overridden_iterations, delayed_kwargs. simpl.
  destruct (String.eqb_spec g "eFAST_indices") as [->|Hne1]; simpl.
  - split_and!; [done | discriminate | done].
  - destruct (String.eqb_spec g "correlation_coefficients") as [->|Hne2]; by split_and!.
Qed.

(** C8: in the dask-capable driver the iteration count of the descriptor
    of a pair is 130 when the method is ['eFAST_indices'], [None] when it
    is ['correlation_coefficients'], and the registry's count for the model
    otherwise: so for the calls of [problem_per_worker] of a full run of
    the loop, pair by pair, and so for every [gf.Problem] call of the
    notebook, made in the loop or by [dask.compute], whatever the outcome. *)
Theorem delayed_iterations_override (F : Fw) (w : World IndexValues)
    (reg : gmap string Entry.t) (model_names gsa_methods : list string) :
  (∀ use_dask s',
     delayed_cell F use_dask model_names gsa_methods (notebook_start w reg) = Ok tt s' →
     Forall2 (λ pair a, ∃ c, reg !! pair.1 = Some c ∧
                Problem.interpreter a = pair.2 ∧ overridden_iterations c pair.2 a)
       (list_prod model_names gsa_methods) (worker_kwargs use_dask (trace s'))) ∧
  (scheduler_fair F → ∀ use_dask,
     Forall (λ a, ∃ model_name c, model_name ∈ model_names ∧
               reg !! model_name = Some c ∧ Problem.model a = Entry.model c ∧
               overridden_iterations c (Problem.interpreter a) a)
       (constructions (trace (final
          (delayed_notebook F use_dask model_names gsa_methods (notebook_start w reg)))))).
Proof.
  split.
  - intros use_dask s' (Hpairs & _)%delayed_cell_worker_kwargs.
    eapply Forall2_impl; [exact Hpairs|].
    intros [m g] a (c & Hc & ->). exists c. split_and!; [done..|].
    apply delayed_kwargs_iterations.
  - intros Hfair use_dask.
    destruct (delayed_notebook_final F use_dask model_names gsa_methods
                (notebook_start w reg) Hfair) as (_ & new & Hcalls & Hnew).
    unfold constructions. rewrite Hcalls. simpl.
    eapply issued_calls_constructions; [|exact Hnew].
    intros m g c Hm Hg Hc. exists m, c. split_and!; [done..|].
    apply delayed_kwargs_iterations.
Qed.

(** ** Sampler, seed and sample matrix *)



(** ** The result consumer *)

Lemma work_events_app (tr1 tr2 : list (Event IndexValues SampleMatrix)) :
  work_events (tr1 ++ tr2) = work_events tr1 ++ work_events tr2.
Proof. apply omap_app. Qed.

Lemma work_events_plots (problem : Problem.t SampleMatrix) (model : Model)
    (sa_results : list (string * IndexValues)) :
  work_events (map (plot_entry problem model) sa_results) =
  map (plot_entry problem model) sa_results.
Proof. induction sa_results as [|x l IH]; simpl; [done | by f_equal]. Qed.

Lemma work_events_after_setup (model_name : string) (write_dir : Path) (s : St) :
  work_events (trace (after_setup model_name write_dir s)) = work_events (trace s).
Proof.
  unfold after_setup. case_bool_decide; simpl; rewrite !work_events_app; simpl;
    by rewrite !app_nil_r.
Qed.

Lemma run_gsa_methods_blocks (F : Fw) (model_name : string) (c : Entry.t)
    (gsa_methods : list string) (s s' : St) :
  models_dict s !! model_name = Some c →
  for_each (run_gsa_pair F model_name (Entry.model c) (Entry.write_dir c)) gsa_methods s
    = Ok tt s' →
  ∃ blocks,
    Forall2 (pair_block F (models_dict s)) (map (pair model_name) gsa_methods) blocks ∧
    work_events (trace s') = work_events (trace s) ++ concat blocks ∧
    models_dict s' = models_dict s ∧ model_evals s' = model_evals s.
Proof.
  revert s. induction gsa_methods as [|g l IH]; intros s Hc; simpl.
  - intros [= <-]. exists []. split_and!; [constructor | by rewrite app_nil_r | done..].
  - intros ([] & s1 & Hpair & Hl)%bind_Ok.
    apply run_gsa_pair_Ok in Hpair
      as (c' & p & w1 & f & r & Hc' & Hgf & Hdict & Hfile & Htr & Hreg & Hev).
    assert (c' = c) as -> by congruence.
    apply IH in Hl as (blocks & Hblocks & Hwork & Hreg' & Hev'); [|congruence].
    exists ((EvProblem (run_gsa_kwargs c g) (world s) :: EvLoad f ::
             map (plot_entry p (Entry.model c)) r) :: blocks).
    split_and!; [|  | congruence..].
    + constructor; [|by rewrite Hreg in Hblocks].
      exists c, p, (world s), w1, f, r. by split_and!.
    + rewrite Hwork, Htr, !work_events_app, work_events_plots. simpl.
      by rewrite <- !app_assoc.
Qed.

(** C4: in a full run of the local driver, what is done besides printing
    and making directories is, pair after pair in the order of the pairs:
    the [gf.Problem] call of the pair, then the load of the file whose path
    the problem built gives under ['sa_results'], then, for every entry
    (index name, index values) of the result set unpickled from that file
    and in their order, one [plot_sa_results] call on that problem with the
    one-entry mapping of that name to those values and the influential
    parameters of the model.  Nothing else is done with a result set:
    the run leaves the registry as it was and [model_evals] empty.  The
    run is full when the selected names are in the registry and the
    framework does its part. *)
Theorem results_loaded_and_plotted (F : Fw) (w : World IndexValues)
    (reg : gmap string Entry.t) (model_names gsa_methods : list string) :
  (∀ s', run_gsa F model_names gsa_methods (notebook_start w reg) = Ok tt s' →
     ∃ blocks,
       Forall2 (pair_block F reg) (list_prod model_names gsa_methods) blocks ∧
       work_events (trace s') = concat blocks ∧
       models_dict s' = reg ∧ model_evals s' = []) ∧
  (dependable F → registered reg model_names →
     ∃ s', run_gsa F model_names gsa_methods (notebook_start w reg) = Ok tt s').
Proof.
  split; [|intros HF Hreg; by apply run_gsa_returns].
  cut (∀ s s' : St, run_gsa F model_names gsa_methods s = Ok tt s' →
         ∃ blocks,
           Forall2 (pair_block F (models_dict s)) (list_prod model_names gsa_methods) blocks ∧
           work_events (trace s') = work_events (trace s) ++ concat blocks ∧
           models_dict s' = models_dict s ∧ model_evals s' = model_evals s).
  { intros Hgen s' Hrun. by apply Hgen in Hrun. }
  unfold run_gsa.
  induction model_names as [|m names IH]; intros s s'; simpl.
  - intros [= <-]. exists []. split_and!; [constructor | by rewrite app_nil_r | done..].
  - intros ([] & s1 & Hmodel & Hrest)%bind_Ok.
    unfold run_gsa_model in Hmodel.
    apply bind_Ok in Hmodel as ([model wd] & s0 & Hsetup & Hloop).
    rewrite model_setup_run in Hsetup.
    destruct (models_dict s !! m) as [c|] eqn:Hc; [|discriminate].
    injection Hsetup as <- <- <-.
    destruct (after_setup_frame m (Entry.write_dir c) s) as (Hreg0 & Hev0 & _ & _).
    apply (run_gsa_methods_blocks F m c) in Hloop
      as (blocks1 & Hblocks1 & Hwork1 & Hreg1 & Hev1); [|congruence].
    apply IH in Hrest as (blocks2 & Hblocks2 & Hwork2 & Hreg2 & Hev2).
    exists (blocks1 ++ blocks2). split_and!; [| |congruence..].
    + apply Forall2_app; [by rewrite Hreg0 in Hblocks1|].
      by rewrite Hreg1, Hreg0 in Hblocks2.
    + rewrite Hwork2, Hwork1, work_events_after_setup, concat_app.
      by rewrite <- app_assoc.
Qed.

(** ** Exceptions *)

Lemma run_gsa_pair_Raise (F : Fw) (model_name : string) (model : Model)
    (write_dir : Path) (gsa_method : string) (s s' : St) (e : Exn) :
  run_gsa_pair F model_name model write_dir gsa_method s = Raise e s' ↔
  run_gsa_pair_raises F model_name model write_dir gsa_method s e s'.
Proof.
  split.
  - unfold run_gsa_pair. intros [[=]|([] & s1 & [= <-] & H)]%bind_Raise.
    apply bind_Raise in H as [H|(c & s1 & Hc & H)].
    { unfold models_dict_getitem in H. simpl in H.
      destruct (models_dict s !! model_name) eqn:Hreg; [discriminate|].
      injection H as <- <-. by constructor. }
    unfold models_dict_getitem in Hc. simpl in Hc.
    destruct (models_dict s !! model_name) as [c'|] eqn:Hreg; [|discriminate].
    injection Hc as -> <-.
    apply bind_Raise in H as [H|(p & s1 & Hcall & H)].
    { unfold call_Problem in H. simpl in H.
      destruct (gf_Problem F _ (world s)) as [e'|[p w1]] eqn:Hgf; [|discriminate].
      injection H as <- <-. by apply (raises_at_Problem _ _ _ _ _ _ c). }
    unfold call_Problem in Hcall. simpl in Hcall.
    destruct (gf_Problem F _ (world s)) as [e'|[p' w1]] eqn:Hgf; [discriminate|].
    injection Hcall as -> <-.
    unfold consume_results in H.
    apply bind_Raise in H as [H|(f & s1 & Hf & H)].
    { unfold gsa_dict_getitem in H.
      destruct (Problem.gsa_dict p !! "sa_results") eqn:Hdict; [discriminate|].
      injection H as <- <-. by apply (raises_at_gsa_dict _ _ _ _ _ _ c p w1). }
    unfold gsa_dict_getitem in Hf.
    destruct (Problem.gsa_dict p !! "sa_results") as [f'|] eqn:Hdict; [|discriminate].
    injection Hf as -> <-.
    apply bind_Raise in H as [H|(r & s1 & Hload & H)].
    { unfold pickle_load in H. simpl in H.
      destruct (files w1 !! f) eqn:Hfile; [discriminate|].
      injection H as <- <-. by apply (raises_at_load _ _ _ _ _ _ c p w1 f). }
    unfold pickle_load in Hload. simpl in Hload.
    destruct (files w1 !! f) as [r'|] eqn:Hfile; [|discriminate].
    injection Hload as -> <-.
    apply for_each_Raise in H as (plotted & [n v] & rest & s2 & -> & Hplotted & Hplot).
    unfold call_plot_sa_results in Hplot.
    destruct (plot_sa_results F p _ _ (world s2)) as [e'|w2] eqn:Hp; [|discriminate].
    injection Hplot as <- <-.
    by apply (raises_at_plot _ _ _ _ _ _ c p w1 f plotted n v rest s2).
  - intros Hraises.
    destruct Hraises as [Hreg|c e0 a Hreg Hgf|c p w1 a Hreg Hgf Hdict
                         |c p w1 f a Hreg Hgf Hdict Hfile
                         |c p w1 f plotted n v rest s2 e0 a sa_indices
                            Hreg Hgf Hdict Hfile Hplotted Hplot];
      unfold run_gsa_pair, consume_results, mbind, M_bind, print,
        models_dict_getitem, call_Problem, gsa_dict_getitem, pickle_load;
      simpl; rewrite Hreg; simpl.
    + done.
    + fold a. by rewrite Hgf.
    + fold a. rewrite Hgf. simpl. by rewrite Hdict.
    + fold a. rewrite Hgf. simpl. rewrite Hdict. simpl. by rewrite Hfile.
    + fold a. rewrite Hgf. simpl. rewrite Hdict. simpl.
      unfold SaResults in *. rewrite Hfile. simpl.
      apply for_each_Raise. exists plotted, (n, v), rest, s2. split_and!; [done..|].
      unfold call_plot_sa_results. fold sa_indices. by rewrite Hplot.
Qed.

(** C6: no exception is caught.  When, after the model names [ns1] and,
    for the model name [m], the methods [gs1] went through, the body of the
    inner loop raises [e] for the method [g] (in the [gf.Problem] call, in
    the load of the result file or in a plot call, or in one of the two
    lookups), the local driver over [ns1 ++ m :: ns2] ends with that very
    exception, in the state it was raised in: the [gf.Problem] calls made
    are those of the pairs up to [(m, g)], none for the methods [gs2] or the
    model names [ns2].  Likewise for the loop of the dask-capable notebook,
    and an exception of a task ends [dask.compute]. *)
Theorem exceptions_propagate (F : Fw) (ns1 ns2 gs1 gs2 : list string) (m g : string)
    (model : Model) (write_dir : Path) (s s1 s2 s3 s4 : St) (e : Exn) :
  let gsa_methods := gs1 ++ g :: gs2 in
  run_gsa F ns1 gsa_methods s = Ok tt s1 →
  model_setup m s1 = Ok (model, write_dir) s2 →
  for_each (run_gsa_pair F m model write_dir) gs1 s2 = Ok tt s3 →
  run_gsa_pair_raises F m model write_dir g s3 e s4 →
  run_gsa F (ns1 ++ m :: ns2) gsa_methods s = Raise e s4 ∧
  (∃ issued, constructions (trace s4) = constructions (trace s) ++ issued ∧
     ∃ k, (k = length gs1 ∨ k = S (length gs1)) ∧
       Forall2 (built_by run_gsa_kwargs (models_dict s))
         (list_prod ns1 gsa_methods ++ map (pair m) (take k gsa_methods)) issued) ∧
  (∀ use_dask s1' s2' s3' s4' e',
     delayed_cell F use_dask ns1 gsa_methods s = Ok tt s1' →
     model_setup m s1' = Ok (model, write_dir) s2' →
     for_each (delayed_pair F use_dask m model write_dir) gs1 s2' = Ok tt s3' →
     delayed_pair F use_dask m model write_dir g s3' = Raise e' s4' →
     delayed_cell F use_dask (ns1 ++ m :: ns2) gsa_methods s = Raise e' s4') ∧
  (∀ tasks1 tasks2 a sc sc' e',
     for_each (compute_task F) tasks1 sc = Ok tt sc' →
     gf_Problem F a (world sc') = inl e' →
     for_each (compute_task F) (tasks1 ++ Deferred a :: tasks2) sc =
       Raise e' (log (EvProblem a (world sc')) sc')).
Proof.
  intros gsa_methods Hrun Hsetup Hloop Hraises.
  assert (run_gsa_pair F m model write_dir g s3 = Raise e s4) as Hpair
    by by apply run_gsa_pair_Raise.
  split_and!.
  - unfold run_gsa in *. rewrite for_each_app, Hrun. simpl.
    unfold mbind at 1, M_bind at 1, run_gsa_model at 1, mbind at 1, M_bind at 1.
    rewrite Hsetup. unfold gsa_methods. by rewrite for_each_app, Hloop; simpl;
      unfold mbind at 1, M_bind at 1; rewrite Hpair.
  - apply run_gsa_Ok in Hrun as (Hreg1 & new1 & Htr1 & Hnew1).
    rewrite model_setup_run in Hsetup.
    destruct (models_dict s1 !! m) as [c|] eqn:Hc; [|discriminate].
    injection Hsetup as <- <- <-.
    destruct (after_setup_frame m (Entry.write_dir c) s1) as (Hreg2 & _ & Hcalls2 & _).
    apply (run_gsa_methods_Ok F m c) in Hloop as [Hreg3 Htr3]; [|congruence].
    assert (constructions (trace (after_setup m (Entry.write_dir c) s1)) =
            constructions (trace s1)) as Hsame
      by (unfold constructions; by rewrite Hcalls2).
    pose proof (run_gsa_pair_final F m (Entry.model c) (Entry.write_dir c) g s3) as Hfin.
    rewrite Hpair in Hfin. simpl in Hfin. destruct Hfin as (_ & _ & _ & Hcalls4).
    assert (models_dict s !! m = Some c) as Hc0 by congruence.
    destruct Hcalls4 as [Hcalls4|(c' & Hc' & Hcalls4)].
    + exists (new1 ++ map (run_gsa_kwargs c) gs1). split.
      * unfold constructions at 1. rewrite Hcalls4. fold (constructions (trace s3)).
        by rewrite Htr3, Hsame, Htr1, <- app_assoc.
      * exists (length gs1). split; [by left|].
        apply Forall2_app; [done|]. unfold gsa_methods.
        rewrite take_app_length. by apply built_by_methods.
    + assert (c' = c) as -> by congruence.
      exists (new1 ++ map (run_gsa_kwargs c) (gs1 ++ [g])). split.
      * unfold constructions at 1. rewrite Hcalls4, fmap_app.
        fold (constructions (trace s3)).
        rewrite Htr3, Hsame, Htr1, map_app, <- !app_assoc. done.
      * exists (S (length gs1)). split; [by right|].
        apply Forall2_app; [done|]. unfold gsa_methods.
        replace (take (S (length gs1)) (gs1 ++ g :: gs2)) with (gs1 ++ [g]).
        { by apply built_by_methods. }
        clear. induction gs1 as [|g1 gs1 IH]; simpl; [done | by f_equal].
  - intros use_dask s1' s2' s3' s4' e' Hcell' Hsetup' Hloop' Hpair'.
    unfold delayed_cell in *.
    apply bind_Ok in Hcell' as ([] & s0 & [= <-] & Hcell').
    unfold mbind at 1, M_bind at 1. rewrite for_each_app, Hcell'. simpl.
    unfold mbind at 1, M_bind at 1, delayed_model at 1, mbind at 1, M_bind at 1.
    rewrite Hsetup'. unfold gsa_methods. by rewrite for_each_app, Hloop'; simpl;
      unfold mbind at 1, M_bind at 1; rewrite Hpair'.
  - intros tasks1 tasks2 a sc sc' e' Htasks Hgf.
    rewrite for_each_app, Htasks. simpl.
    unfold mbind, M_bind, call_Problem. by rewrite Hgf.
Qed.

End Properties.

(** ** The registry entries *)

(** C9: in the registry of either notebook, whatever the four model
    instances are, the names are ['lca'], ['moon'], ['morris'] and
    ['sobol_levitan'], and under each of them the iteration count is the
    number of parameters of the model stored there times the scaling
    constant stored there. *)
Theorem registry_iterations (model_lca model_moon model_morris model_SL : Model) :
  let four_scaled (reg : gmap string Entry.t) :=
    dom reg = ({[ "lca"; "moon"; "morris"; "sobol_levitan" ]} : gset string) ∧
    ∀ model_name c, reg !! model_name = Some c → scaled_iterations c in
  four_scaled (models_dict_run_gsa model_lca model_moon model_morris model_SL) ∧
  four_scaled (models_dict_delayed model_lca model_moon model_morris model_SL).
Proof.
  intros four_scaled. unfold four_scaled, models_dict_run_gsa, models_dict_delayed.
  split; (split; [simpl; rewrite !dom_insert_L, dom_empty_L; set_solver|]);
    intros name c; simpl;
    rewrite !lookup_insert; repeat case_decide; rewrite ?lookup_empty;
    intros [= <-]; reflexivity.
Qed.

(** * More properties of the notebooks *)

Section MoreProperties.
Context {IndexValues SampleMatrix : Type}.
Local Abbreviation St := (State IndexValues SampleMatrix).
Local Abbreviation Cmd A := (@M IndexValues SampleMatrix A).
Local Abbreviation Kwargs := (Problem.args SampleMatrix).
Local Abbreviation Fw := (Framework IndexValues SampleMatrix).
Local Abbreviation SaResults := (@SaResults IndexValues).
Local Abbreviation grows := (@grows IndexValues SampleMatrix).
Local Abbreviation same_files := (@same_files IndexValues SampleMatrix).

(** ** Making directories *)

Lemma with_parents_prefix (p q : Path) : q ∈ with_parents p ↔ q `prefix_of` p.
Proof.
  revert q. induction p as [|c p IH]; intros q; simpl.
  - rewrite list_elem_of_singleton. split.
    + intros ->. done.
    + intros Hq. by apply prefix_nil_inv.
  - rewrite elem_of_cons, list_elem_of_fmap. split.
    + intros [->|(q' & -> & Hq')]; [apply prefix_nil|].
      apply prefix_cons, IH, Hq'.
    + destruct q as [|c' q']; [by left|].
      intros Hq. right. exists q'.
      pose proof (prefix_cons_inv_1 _ _ _ _ Hq) as ->.
      split; [done|]. by eapply IH, prefix_cons_inv_2.
Qed.

Lemma mkdir_world_dirs (p q : Path) (w : World IndexValues) :
  q ∈ dirs (mkdir_world p w) ↔ q ∈ dirs w ∨ q `prefix_of` p.
Proof.
  unfold mkdir_world. simpl.
  rewrite elem_of_union, elem_of_list_to_set. by rewrite with_parents_prefix.
Qed.

(** [mkdir(parents=True, exist_ok=True)] makes the directory and its
    ancestors and nothing else: afterwards a path exists exactly when it
    existed before or is the directory or one of its ancestors; no pickled
    file is touched; and making the directory again changes nothing. *)
Theorem mkdir_makes_the_ancestors (p : Path) (w : World IndexValues) :
  (∀ q, q ∈ dirs (mkdir_world p w) ↔ q ∈ dirs w ∨ q `prefix_of` p) ∧
  files (mkdir_world p w) = files w ∧
  mkdir_world p (mkdir_world p w) = mkdir_world p w.
Proof.
  split_and!.
  - intros q. apply mkdir_world_dirs.
  - reflexivity.
  - unfold mkdir_world. simpl. f_equal.
    by rewrite <- (assoc_L (∪)), (idemp_L (∪)).
Qed.

(** ** The cluster cells *)


Lemma append_empty (b : string) : "" +:+ b = b.
Proof. reflexivity. Qed.




(** ** What a command appends to the trace *)

#[local] Instance appends_preorder (P : Event IndexValues SampleMatrix → Prop) :
  PreOrder (appends P).
Proof.
  split.
  - intros s. split; [done|]. exists []. by rewrite app_nil_r.
  - intros s1 s2 s3 [Hr1 (e1 & Ht1 & H1)] [Hr2 (e2 & Ht2 & H2)].
    split; [congruence|]. exists (e1 ++ e2).
    rewrite Ht2, Ht1, app_assoc. split; [done|]. by apply Forall_app.
Qed.

Lemma appends_log (P : Event IndexValues SampleMatrix → Prop)
    (ev : Event IndexValues SampleMatrix) (s : St) :
  P ev → appends P s (log ev s).
Proof. intros Hev. split; [done|]. exists [ev]. split; [done|]. by apply Forall_singleton. Qed.

Lemma appends_same_trace (P : Event IndexValues SampleMatrix → Prop) (s s' : St) :
  models_dict s' = models_dict s → trace s' = trace s → appends P s s'.
Proof. intros Hr Ht. split; [done|]. exists []. by rewrite app_nil_r. Qed.

Lemma appends_set_world (P : Event IndexValues SampleMatrix → Prop)
    (w : World IndexValues) (s s' : St) :
  appends P s s' → appends P s (set_world w s').
Proof. intros [Hr He]. by split. Qed.

Lemma keeps_appends_getitem (P : Event IndexValues SampleMatrix → Prop) (model_name : string) :
  keeps (appends P) (models_dict_getitem model_name).
Proof.
  intros s. unfold models_dict_getitem. destruct (models_dict s !! model_name); reflexivity.
Qed.

Lemma keeps_appends_model_setup (P : Event IndexValues SampleMatrix → Prop)
    (model_name : string) :
  (∀ line, P (EvPrint line)) → (∀ p, P (EvMkdir p)) →
  keeps (appends P) (model_setup model_name).
Proof.
  intros Hprint Hmkdir s. rewrite model_setup_run.
  destruct (models_dict s !! model_name) as [c|]; simpl; [|by apply appends_log].
  unfold after_setup. case_bool_decide; [by apply appends_log|].
  apply appends_set_world. etransitivity; by apply appends_log.
Qed.

Lemma keeps_appends_Problem (F : Fw) (P : Event IndexValues SampleMatrix → Prop) (a : Kwargs) :
  (∀ w, P (EvProblem a w)) → keeps (appends P) (call_Problem F a).
Proof.
  intros HP s. unfold call_Problem.
  destruct (gf_Problem F a (world s)) as [e|[p w']]; simpl;
    [|apply appends_set_world]; by apply appends_log.
Qed.

Lemma keeps_appends_consume (F : Fw) (P : Event IndexValues SampleMatrix → Prop)
    (problem : Problem.t SampleMatrix) (model : Model) :
  (∀ f, P (EvLoad f)) → (∀ sa_indices l, P (EvPlot problem sa_indices l)) →
  keeps (appends P) (consume_results F problem model).
Proof.
  intros Hload Hplot. unfold consume_results. apply keeps_bind; [apply _| |].
  { intros s. unfold gsa_dict_getitem. destruct (_ !! _); reflexivity. }
  intros f. apply keeps_bind; [apply _| |].
  { intros s. unfold pickle_load. destruct (_ !! _); simpl; by apply appends_log. }
  intros r. apply keeps_for_each; [apply _|].
  intros [n v] _ s. unfold call_plot_sa_results.
  destruct (plot_sa_results F _ _ _ _); simpl;
    [|apply appends_set_world]; by apply appends_log.
Qed.


Lemma keeps_appends_delayed_pair (F : Fw) (P : Event IndexValues SampleMatrix → Prop)
    (use_dask : bool) (model_name : string) (model : Model) (write_dir : Path)
    (gsa_method : string) :
  (∀ line, P (EvPrint line)) → (∀ a, P (EvDelayed a)) →
  (use_dask = false → ∀ a w, P (EvProblem a w)) →
  keeps (appends P) (delayed_pair F use_dask model_name model write_dir gsa_method).
Proof.
  intros Hprint Hdelayed HP. unfold delayed_pair.
  apply keeps_bind; [apply _ | |].
  { destruct (String.eqb _ _); [apply keeps_ret, _|].
    destruct (String.eqb _ _); [apply keeps_ret, _|].
    apply keeps_bind; [apply _ | apply keeps_appends_getitem |].
    intros c. apply keeps_ret, _. }
  intros its. apply keeps_bind; [apply _ | intros s; by apply appends_log |]. intros _.
  apply keeps_bind; [apply _ | |].
  { unfold problem_per_worker. destruct use_dask.
    - intros s. by apply appends_log.
    - apply keeps_bind; [apply _ | apply keeps_appends_Problem; by apply HP |].
      intros p. apply keeps_ret, _. }
  intros t s. by apply appends_same_trace.
Qed.

Lemma keeps_appends_compute_task (F : Fw) (P : Event IndexValues SampleMatrix → Prop)
    (t : Task SampleMatrix) :
  (∀ a w, P (EvProblem a w)) → keeps (appends P) (compute_task F t).
Proof.
  intros HP. destruct t as [p|a]; simpl; [apply keeps_ret, _|].
  apply keeps_bind; [apply _ | by apply keeps_appends_Problem |].
  intros p. apply keeps_ret, _.
Qed.

Lemma keeps_appends_setup_loop (P : Event IndexValues SampleMatrix → Prop)
    (body : string → Model → Path → string → Cmd unit)
    (model_names gsa_methods : list string) :
  (∀ line, P (EvPrint line)) → (∀ p, P (EvMkdir p)) →
  (∀ m model wd g, keeps (appends P) (body m model wd g)) →
  keeps (appends P) (setup_loop body model_names gsa_methods).
Proof.
  intros Hprint Hmkdir Hbody. unfold setup_loop.
  apply keeps_for_each; [apply _|]. intros m _.
  apply keeps_bind; [apply _ | by apply keeps_appends_model_setup |].
  intros [model wd]. apply keeps_for_each; [apply _|]. intros g _. apply Hbody.
Qed.

Lemma omap_Forall_None {A B} (f : A → option B) (l : list A) :
  Forall (λ x, f x = None) l → omap f l = [].
Proof. induction 1 as [|x l Hx _ IH]; simpl; [done | by rewrite Hx]. Qed.


Lemma appends_consumer_calls (s s' : St) :
  appends consumes_nothing s s' → consumer_calls (trace s') = consumer_calls (trace s).
Proof.
  intros [_ (evs & -> & Hevs)]. unfold consumer_calls.
  rewrite omap_app, (omap_Forall_None _ evs); [apply app_nil_r|].
  eapply Forall_impl; [exact Hevs|]. by intros [].
Qed.


Lemma run_gsa_setup_loop (F : Fw) (model_names gsa_methods : list string) :
  run_gsa F model_names gsa_methods = setup_loop (run_gsa_pair F) model_names gsa_methods.
Proof. reflexivity. Qed.

Lemma delayed_cell_setup_loop (F : Fw) (use_dask : bool)
    (model_names gsa_methods : list string) (s : St) :
  delayed_cell F use_dask model_names gsa_methods s =
  setup_loop (delayed_pair F use_dask) model_names gsa_methods (set_model_evals [] s).
Proof. reflexivity. Qed.

#[local] Instance grows_is_preorder : PreOrder grows.
Proof. split; unfold grows; [intros s | intros s1 s2 s3]; set_solver. Qed.


(** ** The directories a run makes *)






(** ** What each driver never does *)

Lemma keeps_appends_delayed_notebook (F : Fw) (P : Event IndexValues SampleMatrix → Prop)
    (use_dask : bool) (model_names gsa_methods : list string) :
  (∀ line, P (EvPrint line)) → (∀ p, P (EvMkdir p)) → (∀ a, P (EvDelayed a)) →
  (∀ a w, P (EvProblem a w)) →
  keeps (appends P) (delayed_notebook F use_dask model_names gsa_methods).
Proof.
  intros Hprint Hmkdir Hdelayed HP. unfold delayed_notebook.
  apply keeps_bind; [apply _ | |].
  - intros s. rewrite delayed_cell_setup_loop.
    transitivity (set_model_evals [] s); [by apply appends_same_trace|].
    apply keeps_appends_setup_loop; [done..|].
    intros m model wd g. apply keeps_appends_delayed_pair; [done..|]. by intros _.
  - intros _ s. unfold dask_compute. apply keeps_for_each; [apply _|].
    intros t _. by apply keeps_appends_compute_task.
Qed.

(** X7: the dask-capable notebook never loads a result file and never
    plots, whatever the selections, the framework, the scheduler and the
    outcome; and the local driver never defers a call and leaves
    [model_evals] as it is. *)
Theorem nothing_loaded_nothing_deferred (F : Fw) (use_dask : bool)
    (model_names gsa_methods : list string) (s : St) :
  consumer_calls (trace (final (delayed_notebook F use_dask model_names gsa_methods s)))
    = consumer_calls (trace s) ∧
  deferrals (trace (final (run_gsa F model_names gsa_methods s))) = deferrals (trace s) ∧
  model_evals (final (run_gsa F model_names gsa_methods s)) = model_evals s.
Proof.
  split_and!.
  - apply appends_consumer_calls. by apply keeps_appends_delayed_notebook.
  - by destruct (run_gsa_final F model_names gsa_methods s) as (_ & _ & ? & _).
  - by destruct (run_gsa_final F model_names gsa_methods s) as (_ & ? & _).
Qed.

(** ** The loop with every call deferred *)

#[local] Instance same_files_preorder : PreOrder same_files.
Proof. split; unfold same_files; [by intros s | intros s1 s2 s3; congruence]. Qed.






(** ** A model name that is not in the registry *)

Lemma setup_loop_missing (body : string → Model → Path → string → Cmd unit)
    (ns1 ns2 gsa_methods : list string) (m : string) (s s1 : St) :
  setup_loop body ns1 gsa_methods s = Ok tt s1 →
  models_dict s1 !! m = None →
  setup_loop body (ns1 ++ m :: ns2) gsa_methods s
    = Raise (KeyError m) (log (EvPrint (newline +:+ ">>> " +:+ m)) s1).
Proof.
  unfold setup_loop. intros Hrun Hm. rewrite for_each_app, Hrun. simpl.
  unfold mbind at 1, M_bind at 1, mbind at 1, M_bind at 1.
  by rewrite model_setup_run, Hm.
Qed.

(** X1: a selected model name that is not in [models_dict] ends either
    driver with [KeyError] of that name, right after its header line is
    printed: the names before it have been gone through in full, and for
    it and the names after it no directory is made and no problem built.
    In the dask-capable notebook [dask.compute] is then not reached, so
    with [use_dask] set no problem has been built at all, not even for
    the names before. *)
Theorem missing_model_name (F : Fw) (use_dask : bool) (ns1 ns2 gsa_methods : list string)
    (m : string) (s : St) :
  models_dict s !! m = None →
  let header := EvPrint (newline +:+ ">>> " +:+ m) in
  (∀ s1, run_gsa F ns1 gsa_methods s = Ok tt s1 →
     run_gsa F (ns1 ++ m :: ns2) gsa_methods s = Raise (KeyError m) (log header s1)) ∧
  (∀ s1, delayed_cell F use_dask ns1 gsa_methods s = Ok tt s1 →
     delayed_notebook F use_dask (ns1 ++ m :: ns2) gsa_methods s
       = Raise (KeyError m) (log header s1) ∧
     (use_dask = true →
        constructions (trace (log header s1)) = constructions (trace s))).
Proof.
  intros Hm header. split.
  - intros s1 Hrun. rewrite run_gsa_setup_loop in *.
    apply setup_loop_missing; [done|].
    apply run_gsa_Ok in Hrun as [-> _]. done.
  - intros s1 Hcell.
    pose proof (delayed_cell_Ok _ _ _ _ _ _ Hcell) as (new & _ & Hreg & Hc & _).
    split.
    + unfold delayed_notebook, mbind, M_bind.
      rewrite delayed_cell_setup_loop in *.
      erewrite setup_loop_missing; [done..|]. by rewrite Hreg.
    + intros ->. simpl. rewrite constructions_app, Hc. simpl. by rewrite !app_nil_r.
Qed.

(** ** What the drivers print *)

Lemma printed_app (tr1 tr2 : list (Event IndexValues SampleMatrix)) :
  printed (tr1 ++ tr2) = printed tr1 ++ printed tr2.
Proof. apply omap_app. Qed.

Lemma appends_printed (s s' : St) :
  appends prints_nothing s s' → printed (trace s') = printed (trace s).
Proof.
  intros [_ (evs & -> & Hevs)]. unfold printed.
  rewrite omap_app, (omap_Forall_None _ evs); [apply app_nil_r|].
  eapply Forall_impl; [exact Hevs|]. by intros [].
Qed.

Lemma bind_run {A B} (m : Cmd A) (f : A → Cmd B) (s s1 : St) (a : A) :
  m s = Ok a s1 → (m ≫= f) s = f a s1.
Proof. unfold mbind, M_bind. by intros ->. Qed.

Lemma bind_stop {A B} (m : Cmd A) (f : A → Cmd B) (s s1 : St) (e : Exn) :
  m s = Raise e s1 → (m ≫= f) s = Raise e s1.
Proof. unfold mbind, M_bind. by intros ->. Qed.

Lemma prints_silent {A} (reg : gmap string Entry.t) (m : Cmd A) :
  keeps (appends prints_nothing) m → prints reg [] m.
Proof.
  intros Hm s Hreg. specialize (Hm s). split; [destruct Hm; congruence|].
  exists []. rewrite app_nil_r. split_and!; [done | by apply appends_printed | done].
Qed.

Lemma prints_print (reg : gmap string Entry.t) (line : string) :
  prints reg [line] (print line : Cmd unit).
Proof.
  intros s Hreg. split; [done|]. exists [line]. split_and!; [done| |done].
  simpl. by rewrite printed_app.
Qed.

Lemma prints_bind {A B} (reg : gmap string Entry.t) (l1 l2 : list string)
    (m : Cmd A) (f : A → Cmd B) :
  prints reg l1 m → (∀ a, prints reg l2 (f a)) → prints reg (l1 ++ l2) (m ≫= f).
Proof.
  intros Hm Hf s Hreg. destruct (Hm s Hreg) as (Hreg1 & ls1 & Hp1 & Hl1 & Hall1).
  unfold mbind, M_bind. destruct (m s) as [a s1|e s1] eqn:Hms; simpl in *.
  - destruct (Hf a s1 Hreg1) as (Hreg2 & ls2 & Hp2 & Hl2 & Hall2).
    split; [done|]. exists (l1 ++ ls2).
    rewrite (Hall1 a s1 eq_refl) in Hl1. split_and!.
    + by apply prefix_app.
    + by rewrite Hl2, Hl1, app_assoc.
    + intros b s' Hb. by rewrite (Hall2 b s' Hb).
  - split; [done|]. exists ls1. split_and!; [by apply prefix_app_r | done | done].
Qed.

Lemma prints_for_each {A} (reg : gmap string Entry.t) (line : A → list string)
    (body : A → Cmd unit) (l : list A) :
  (∀ x, prints reg (line x) (body x)) → prints reg (flat_map line l) (for_each body l).
Proof.
  intros Hbody. induction l as [|x l IH]; simpl.
  - intros s Hreg. split; [done|]. exists []. by rewrite app_nil_r.
  - apply prints_bind; [apply Hbody | by intros _].
Qed.

Lemma flat_map_singleton {A B} (f : A → B) (l : list A) :
  flat_map (λ x, [f x]) l = map f l.
Proof. induction l; simpl; by f_equal. Qed.

Lemma printed_after_setup (model_name : string) (write_dir : Path) (s : St) :
  printed (trace (after_setup model_name write_dir s))
    = printed (trace s) ++ [newline +:+ ">>> " +:+ model_name].
Proof.
  unfold after_setup. case_bool_decide; simpl; rewrite !printed_app; simpl;
    by rewrite ?app_nil_r.
Qed.

Lemma prints_run_gsa_pair (F : Fw) (reg : gmap string Entry.t) (model_name : string)
    (model : Model) (write_dir : Path) (gsa_method : string) :
  prints reg ["--- " +:+ gsa_method] (run_gsa_pair F model_name model write_dir gsa_method).
Proof.
  unfold run_gsa_pair. change ["--- " +:+ gsa_method] with (["--- " +:+ gsa_method] ++ []).
  apply prints_bind; [apply prints_print|]. intros _. apply prints_silent.
  apply keeps_bind; [apply _ | apply keeps_appends_getitem |]. intros c.
  apply keeps_bind; [apply _ | by apply keeps_appends_Problem |]. intros p.
  by apply keeps_appends_consume.
Qed.


Lemma prints_run_gsa (F : Fw) (reg : gmap string Entry.t)
    (model_names gsa_methods : list string) :
  prints reg (run_gsa_lines model_names gsa_methods) (run_gsa F model_names gsa_methods).
Proof.
  unfold run_gsa, run_gsa_lines. apply prints_for_each. intros m.
  unfold run_gsa_model.
  change (?h :: map ?f gsa_methods) with ([h] ++ map f gsa_methods).
  apply prints_bind.
  - intros s Hreg. rewrite model_setup_run.
    destruct (models_dict s !! m) as [c|]; simpl.
    + split; [by destruct (after_setup_frame m (Entry.write_dir c) s) as [-> _]|].
      exists [newline +:+ ">>> " +:+ m]. by rewrite printed_after_setup.
    + split; [done|]. exists [newline +:+ ">>> " +:+ m]. by rewrite printed_app.
  - intros [model wd]. rewrite <- flat_map_singleton. apply prints_for_each.
    intros g. apply prints_run_gsa_pair.
Qed.


(** X3: what the local driver prints. Whatever the outcome, the lines
    printed are a beginning of the expected ones: per model name its
    header, then one line per method; a run that returns has printed all
    of them, once each and in the order of the selections. Nothing else is
    printed, by the driver itself. *)
Theorem run_gsa_prints (F : Fw) (model_names gsa_methods : list string) (s : St) :
  ∃ ls, ls `prefix_of` run_gsa_lines model_names gsa_methods ∧
    printed (trace (final (run_gsa F model_names gsa_methods s))) = printed (trace s) ++ ls ∧
    (∀ s', run_gsa F model_names gsa_methods s = Ok tt s' →
       ls = run_gsa_lines model_names gsa_methods).
Proof.
  destruct (prints_run_gsa F (models_dict s) model_names gsa_methods s eq_refl)
    as (_ & ls & Hp & Hl & Hall).
  exists ls. split_and!; [done..|]. intros s'. apply Hall.
Qed.


(** ** No method selected *)



(** ** Cells run again *)

(** X8: the loop cell starts its task list afresh. Run a second time, it
    does not add to the list but replaces it by the tasks of the same
    calls, in the same order (with [use_dask] set by the very same tasks);
    the calls deferred or issued are the ones of the first run, once
    more. *)
Theorem loop_cell_again (F : Fw) (use_dask : bool) (model_names gsa_methods : list string)
    (s s1 s2 : St) :
  delayed_cell F use_dask model_names gsa_methods s = Ok tt s1 →
  delayed_cell F use_dask model_names gsa_methods s1 = Ok tt s2 →
  ∃ new, Forall2 (built_by delayed_kwargs (models_dict s))
           (list_prod model_names gsa_methods) new ∧
    Forall2 (task_for use_dask) new (model_evals s1) ∧
    Forall2 (task_for use_dask) new (model_evals s2) ∧
    (use_dask = true → model_evals s2 = model_evals s1) ∧
    deferrals (trace s2) = deferrals (trace s) ++ (if use_dask then new ++ new else []) ∧
    constructions (trace s2) = constructions (trace s) ++ (if use_dask then [] else new ++ new).
Proof.
  intros (new & Hnew & Hreg & Hc & Hd & Ht)%delayed_cell_Ok
         (new' & Hnew' & Hreg' & Hc' & Hd' & Ht')%delayed_cell_Ok.
  rewrite Hreg in Hnew'.
  assert (new' = new) as -> by (by eapply built_by_functional).
  exists new. split_and!; [done..| | |].
  - intros ->. apply task_for_deferred in Ht, Ht'. congruence.
  - rewrite Hd', Hd, <- app_assoc. by destruct use_dask.
  - rewrite Hc', Hc, <- app_assoc. by destruct use_dask.
Qed.

Lemma compute_built (F : Fw) (tasks : list (Task SampleMatrix)) (s : St) :
  Forall (λ t, deferred_kwargs t = None) tasks →
  for_each (compute_task F) tasks s = Ok tt s.
Proof.
  induction 1 as [|t l Ht _ IH]; simpl; [done|].
  destruct t as [p|a]; [|done]. simpl. exact IH.
Qed.

(** X9: with [use_dask] unset the compute cell adds nothing. Under a
    scheduler that hands back the tasks it is given, the two cells
    together do what the loop cell does alone, whether it returns or
    raises: every problem was built in the loop, and [dask.compute] hands
    the problems back without calling anything. *)
Theorem compute_of_built_is_idle (F : Fw) (model_names gsa_methods : list string) (s : St) :
  scheduler_fair F →
  delayed_notebook F false model_names gsa_methods s
    = delayed_cell F false model_names gsa_methods s.
Proof.
  intros Hfair. unfold delayed_notebook.
  destruct (delayed_cell F false model_names gsa_methods s) as [[] s1|e s1] eqn:Hcell.
  - erewrite bind_run; [|exact Hcell]. unfold dask_compute.
    apply compute_built. rewrite (Hfair (model_evals s1)).
    apply delayed_cell_Ok in Hcell as (new & _ & _ & _ & _ & Ht).
    clear -Ht. induction Ht as [|a t new tasks [p ->] _ IH]; by constructor.
  - by apply bind_stop.
Qed.


(** ** Failures of deferred calls *)




(** ** The registries *)



End MoreProperties.

(** * The statements on the sample instances *)

Lemma sample_scheduler_fair : scheduler_fair Sample.framework.
Proof. intros l. simpl. apply reverse_Permutation. Qed.


Lemma sample_dependable : dependable Sample.framework.
Proof.
  split; simpl.
  - intros a w. eexists _, _, _, _. split_and!; [reflexivity|..].
    + apply lookup_singleton_eq.
    + simpl. apply lookup_insert_eq.
  - intros p i l w. by exists w.
Qed.

Lemma sample_registered :
  registered Sample.registry_run_gsa model_names_run_gsa ∧
  registered Sample.registry_delayed Sample.model_names.
Proof.
  split; unfold registered;
    repeat (apply Forall_cons; split; [eexists; vm_compute; reflexivity|]);
    apply Forall_nil_2.
Qed.

Lemma sample_run_gsa_Ok :
  run_gsa Sample.framework model_names_run_gsa gsa_methods_run_gsa Sample.start_run_gsa
  = Ok tt Sample.end_run_gsa.
Proof. unfold Sample.end_run_gsa. apply returned_final. vm_compute. reflexivity. Qed.

Lemma sample_delayed_cell_Ok (use_dask : bool) :
  delayed_cell Sample.framework use_dask Sample.model_names Sample.gsa_methods
    Sample.start_delayed
  = Ok tt (Sample.end_delayed_cell use_dask).
Proof.
  unfold Sample.end_delayed_cell. apply returned_final.
  destruct use_dask; vm_compute; reflexivity.
Qed.


Lemma one_problem_per_pair_witness :
  NoDup (list_prod model_names_run_gsa gsa_methods_run_gsa) ∧
  length (constructions (trace Sample.end_run_gsa)) = 8%nat ∧
  length (model_evals (Sample.end_delayed_cell true)) = 8%nat ∧
  length (model_evals (Sample.end_delayed_cell false)) = 8%nat ∧
  ∃ s', run_gsa Sample.framework model_names_run_gsa gsa_methods_run_gsa
          Sample.start_run_gsa = Ok tt s'.
Proof.
  split_and!.
  - apply (one_problem_per_pair Sample.framework Sample.empty_world
             Sample.registry_run_gsa model_names_run_gsa gsa_methods_run_gsa);
      by apply (bool_decide_unpack _).
  - destruct (one_problem_per_pair Sample.framework Sample.empty_world
                Sample.registry_run_gsa model_names_run_gsa gsa_methods_run_gsa)
      as (_ & Hlocal & _).
    by destruct (Hlocal _ sample_run_gsa_Ok) as [_ ->].
  - destruct (one_problem_per_pair Sample.framework Sample.morris_world
                Sample.registry_delayed Sample.model_names Sample.gsa_methods)
      as (_ & _ & Hcell & _).
    by destruct (Hcell true _ (sample_delayed_cell_Ok true)) as (_ & _ & ->).
  - destruct (one_problem_per_pair Sample.framework Sample.morris_world
                Sample.registry_delayed Sample.model_names Sample.gsa_methods)
      as (_ & _ & Hcell & _).
    by destruct (Hcell false _ (sample_delayed_cell_Ok false)) as (_ & _ & ->).
  - destruct (one_problem_per_pair Sample.framework Sample.empty_world
                Sample.registry_run_gsa model_names_run_gsa gsa_methods_run_gsa)
      as (_ & _ & _ & Hreturns & _).
    exact (Hreturns sample_dependable (proj1 sample_registered)).
Defined.


Lemma results_loaded_and_plotted_witness :
  ∃ blocks,
    Forall2 (pair_block Sample.framework Sample.registry_run_gsa)
      (list_prod model_names_run_gsa gsa_methods_run_gsa) blocks ∧
    work_events (trace Sample.end_run_gsa) = concat blocks ∧
    models_dict Sample.end_run_gsa = Sample.registry_run_gsa ∧
    model_evals Sample.end_run_gsa = [].
Proof.
  exact (proj1 (results_loaded_and_plotted Sample.framework Sample.empty_world
                  Sample.registry_run_gsa model_names_run_gsa gsa_methods_run_gsa) _
           sample_run_gsa_Ok).
Defined.


Lemma exceptions_propagate_witness :
  run_gsa Sample.faulty_framework model_names_run_gsa gsa_methods_run_gsa
    Sample.start_run_gsa
  = Raise (Exception "cannot plot") Sample.end_faulty.
Proof.
  refine (proj1 (exceptions_propagate Sample.faulty_framework
            [] ["sobol_levitan"] [] ["sobol_indices"; "eFAST_indices"; "xgboost"]
            "morris" "correlation_coefficients"
            Sample.model_morris (path_div path_base "morris_model")
            Sample.start_run_gsa Sample.start_run_gsa Sample.faulty_setup
            Sample.faulty_setup Sample.end_faulty (Exception "cannot plot")
            _ _ _ _)).
  - reflexivity.
  - unfold Sample.faulty_setup. apply returned_final. vm_compute. reflexivity.
  - reflexivity.
  - apply run_gsa_pair_Raise. unfold Sample.end_faulty. apply raised_final.
    vm_compute. reflexivity.
Defined.


Lemma delayed_iterations_override_witness :
  Forall2 (λ pair a, ∃ c, Sample.registry_delayed !! pair.1 = Some c ∧
             Problem.interpreter a = pair.2 ∧ overridden_iterations c pair.2 a)
    (list_prod Sample.model_names Sample.gsa_methods)
    (worker_kwargs true (trace (Sample.end_delayed_cell true))).
Proof.
  exact (proj1 (delayed_iterations_override Sample.framework Sample.morris_world
           Sample.registry_delayed Sample.model_names Sample.gsa_methods)
           true _ (sample_delayed_cell_Ok true)).
Defined.

Lemma registry_iterations_witness :
  ∃ c, Sample.registry_run_gsa !! "morris" = Some c ∧ scaled_iterations c ∧
       Entry.iterations c = 5000.
Proof.
  eexists. split; [vm_compute; reflexivity|]. split; [|reflexivity].
  apply (proj2 (proj1 (registry_iterations Sample.model_lca Sample.model_moon
                         Sample.model_morris Sample.model_SL)) "morris").
  vm_compute. reflexivity.
Defined.




Lemma missing_model_name_witness :
  run_gsa Sample.framework ["morris"; "ishigami"; "lca"] ["sobol_indices"]
    Sample.start_run_gsa
  = Raise (KeyError "ishigami")
      (log (EvPrint (newline +:+ ">>> " +:+ "ishigami")) Sample.before_missing) ∧
  delayed_notebook Sample.framework true ["morris"; "ishigami"; "lca"] ["sobol_indices"]
    Sample.start_run_gsa
  = Raise (KeyError "ishigami")
      (log (EvPrint (newline +:+ ">>> " +:+ "ishigami")) Sample.before_missing_delayed).
Proof.
  destruct (missing_model_name Sample.framework true ["morris"] ["lca"]
              ["sobol_indices"] "ishigami" Sample.start_run_gsa)
    as [Hlocal Hdelayed]; [vm_compute; reflexivity|].
  split.
  - apply Hlocal. unfold Sample.before_missing. apply returned_final.
    vm_compute. reflexivity.
  - apply Hdelayed. unfold Sample.before_missing_delayed. apply returned_final.
    vm_compute. reflexivity.
Defined.



Lemma loop_cell_again_witness :
  model_evals (Sample.end_delayed_cell_again true)
  = model_evals (Sample.end_delayed_cell true).
Proof.
  destruct (loop_cell_again Sample.framework true Sample.model_names Sample.gsa_methods
              Sample.start_delayed (Sample.end_delayed_cell true)
              (Sample.end_delayed_cell_again true) (sample_delayed_cell_Ok true))
    as (new & _ & _ & _ & Hsame & _).
  - unfold Sample.end_delayed_cell_again. apply returned_final. vm_compute. reflexivity.
  - exact (Hsame eq_refl).
Defined.

Lemma compute_of_built_is_idle_witness :
  Sample.end_delayed false = Sample.end_delayed_cell false.
Proof.
  unfold Sample.end_delayed, Sample.end_delayed_cell.
  rewrite (compute_of_built_is_idle Sample.framework Sample.model_names
             Sample.gsa_methods Sample.start_delayed sample_scheduler_fair).
  reflexivity.
Defined.


